(** * goployer: the runner (pkg/runner/rurnner.go)

    A shallow embedding of the deployment runner: the capacity validation of
    the update mode, the two convergence pollers ([doHealthchecking] and
    [cleanChecking]) and the three mutating modes ([Deploy], [Delete],
    [Update]), with the properties of the specification stated over them.
    The second part covers the rest of the file: the dispatcher ([Start],
    [withRunner], [NewRunner], [Run], [Status]), the modes init and add
    ([Initialize], [AddManifest]), the path filter [FilterS3Path] and the
    set-up of the builder ([SetupBuilder], [ServerSetup]).

    Conventions
    - Go's [int64] is [Z]; the runner only compares these numbers, it never
      does arithmetic on them, so no wrap-around can occur.
    - Go's [error] is [option error]: [None] is [nil].
    - Go's [map[string]bool] is [gmap string bool]; reading a missing key
      gives [false] as in Go.
    - A [for] loop without a bound is a [Fixpoint] on fuel over the loop
      body; running out of fuel is the outcome [OutOfFuel]. *)

From Stdlib Require Import ZArith Lia Ascii.
From stdpp Require Import base option list gmap strings.

Open Scope string_scope.

(** ** Errors *)

(** The errors the runner creates itself, plus the ones handed back by a
    collaborator ([ErrExternal]). *)
Inductive error : Type :=
| ErrTimeout (timeout : Z)
| ErrHealthcheck
| ErrDeclined
| ErrMinOverMax
| ErrMinOverDesired
| ErrDesiredOverMax
| ErrNothingUpdated
| ErrExternal (msg : string).

(** The text of each error.  The timeout text ends in the timeout in minutes,
    printed from a float; only its fixed part is kept. *)
Definition Error (e : error) : string :=
  match e with
  | ErrTimeout _ => "timeout has been exceeded"
  | ErrHealthcheck => "error happened while healthchecking"
  | ErrDeclined => "you declined to run command"
  | ErrMinOverMax => "minimum value cannot be larger than maximum value"
  | ErrMinOverDesired => "desired value cannot be smaller than maximum value"
  | ErrDesiredOverMax => "desired value cannot be larger than max value"
  | ErrNothingUpdated => "nothing is updated"
  | ErrExternal msg => msg
  end.

Global Instance error_eq_dec : EqDecision error.
Proof. solve_decision. Defined.

(** ** Capacity (schemas.Capacity) *)

Record Capacity : Type := mkCapacity {
  Min : Z;
  Max : Z;
  Desired : Z;
}.

Global Instance Capacity_eq_dec : EqDecision Capacity.
Proof. solve_decision. Defined.

(** makeCapacityStruct creates schemas.Capacity with values *)
Definition makeCapacityStruct (min max desired : Z) : Capacity :=
  {| Min := min; Max := max; Desired := desired |}.

(** nullCheck will return original value if no input exists *)
Definition nullCheck (input origin : Z) : Z :=
  if (input <? 0)%Z then origin else input.

(** CheckUpdateInformation checks if updated information is valid or not *)
Definition CheckUpdateInformation (old new : Capacity) : option error :=
  if (Min new >? Max new)%Z then Some ErrMinOverMax
  else if (Min new >? Desired new)%Z then Some ErrMinOverDesired
  else if (Desired new >? Max new)%Z then Some ErrDesiredOverMax
  else if bool_decide (old = new) then Some ErrNothingUpdated
  else None.

(** ** Configuration and stacks (schemas.Config, schemas.Stack)

    Only the fields the runner reads or writes.  [Timeout] and
    [PollingInterval] are durations and [StartTimestamp] a Unix time, all
    three counted in seconds. *)

Module Config.
Record t : Type := mk {
  Stack : string;
  Region : string;
  Application : string;
  AutoApply : bool;
  SlackOff : bool;
  Min : Z;
  Max : Z;
  Desired : Z;
  StartTimestamp : Z;
  Timeout : Z;
  PollingInterval : Z;
  DownSizingUpdate : bool;
  TargetAutoscalingGroup : string;
  ForceManifestCapacity : bool;
}.
End Config.

Module Stack.
Record t : Type := mk {
  Stack : string;
  APITestEnabled : bool;
  APITestTemplate : string;
  ReplacementType : string;
}.
End Stack.

(** ** The deployer interface (deployer.DeployManager)

    One value per stack.  The lifecycle operations return an [error]; the two
    probes return a result map.  A probe talks to the cloud, so what it
    returns changes from one polling round to the next: the round number is
    an extra argument of the two probes. *)

Module DeployManager.
Record t : Type := mk {
  GetStackName : string;
  CheckPrevious : Config.t -> option error;
  Deploy : Config.t -> option error;
  FinishAdditionalWork : Config.t -> option error;
  TriggerLifecycleCallbacks : Config.t -> option error;
  CleanPreviousVersion : Config.t -> option error;
  GatherMetrics : Config.t -> option error;
  RunAPITest : Config.t -> option error;
  HealthChecking : Config.t -> nat -> gmap string bool;
  TerminateChecking : Config.t -> nat -> gmap string bool;
}.
End DeployManager.

Import DeployManager.

(** ** What the runner does not control

    The clock, the operating system, the operator at the prompt, the
    scheduler of the probe goroutines and Go's order of iteration over a map.
    - [now k] is the clock read by the k-th deadline check of a health loop;
    - [arrival k count] is the order in which the [count] probes launched in
      round [k] deliver their result on the channel, as positions in the
      order of launch;
    - [range_order k count m] is the order in which [range] visits the map
      [m] received in round [k] when [count] results are still awaited. *)

Record World : Type := mkWorld {
  GOOS : string;
  AskContinue : string -> bool;
  now : nat -> Z;
  arrival : nat -> nat -> list nat;
  range_order : nat -> nat -> gmap string bool -> list (string * bool);
}.

Definition with_clock (w : World) (clock : nat -> Z) : World :=
  {| GOOS := GOOS w; AskContinue := AskContinue w; now := clock;
     arrival := arrival w; range_order := range_order w |}.

(** Every probe launched delivers exactly one result, and [range] visits
    every entry of a map exactly once. *)
Record world_ok (w : World) : Prop := {
  arrival_perm : forall k count, arrival w k count ≡ₚ seq 0 count;
  range_perm : forall k count m, range_order w k count m ≡ₚ map_to_list m;
}.

(** The elements of [l] in the order [order] of their positions. *)
Definition deliver {A : Type} (order : list nat) (l : list A) : list A :=
  omap (fun i => l !! i) order.

(** The probes of round [k] launched for [launched], in order of delivery. *)
Definition received (w : World) (k : nat) (launched : list DeployManager.t)
  : list DeployManager.t :=
  deliver (arrival w k (length launched)) launched.

(** ** Helpers of pkg/tool *)

(** Modelled from the spec: tool.IsStringInArray, of package pkg/tool, which
    the runner imports; membership of a string in a slice. *)
Fixpoint IsStringInArray (s : string) (arr : list string) : bool :=
  match arr with
  | [] => false
  | a :: arr' => if String.eqb a s then true else IsStringInArray s arr'
  end.

(** Modelled from the spec: tool.CheckTimeout, of package pkg/tool, which the
    runner imports; true when the time elapsed since [start] exceeds
    [timeout].  The clock it reads is the argument [current]. *)
Definition CheckTimeout (current start timeout : Z) : bool * option error :=
  ((timeout <? current - start)%Z, None).

(** ** Results of a function that may loop *)

Inductive result (A : Type) : Type :=
| Returns (a : A)
| Fails (e : error)
| OutOfFuel.
Arguments Returns {A} a.
Arguments Fails {A} e.
Arguments OutOfFuel {A}.

(** ** Health convergence (doHealthchecking) *)

(** The variables of the loop, and the number of rounds begun so far. *)
Record hstate : Type := mkH {
  h_round : nat;
  healthyStackList : list string;
  healthy : bool;
}.

Definition h_init : hstate :=
  {| h_round := 0; healthyStackList := []; healthy := false |}.

(** The deployers a round probes: those whose name is not in the list yet.
    [count] is the length of this list. *)
Definition to_probe (deployers : list DeployManager.t) (l : list string)
  : list DeployManager.t :=
  filter (fun d => IsStringInArray (GetStackName d) l = false) deployers.

(** [for key, val := range ret], health variant. *)
Definition h_merge (entries : list (string * bool)) (l : list string) : list string :=
  foldl (fun acc (kv : string * bool) =>
           if String.eqb kv.1 "error" then acc
           else if kv.2 then (acc ++ [kv.1])%list else acc) l entries.

(** [for count > 0]: [rets] are the results still to be received. *)
Fixpoint h_collect (w : World) (k : nat) (rets : list (gmap string bool))
    (l : list string) : error + list string :=
  match rets with
  | [] => inr l
  | ret :: rets' =>
      if default false (ret !! "error") then inl ErrHealthcheck
      else h_collect w k rets' (h_merge (range_order w k (length rets) ret) l)
  end.

(** One turn of [for !healthy].  The log lines and the sleep between two
    rounds leave no mark: time shows only in what [now] reads. *)
Definition h_body (w : World) (deployers : list DeployManager.t)
    (config : Config.t) (s : hstate) : error + hstate :=
  let k := h_round s in
  let (isTimeout, _) :=
    CheckTimeout (now w k) (Config.StartTimestamp config) (Config.Timeout config) in
  if isTimeout then inl (ErrTimeout (Config.Timeout config))
  else
    let probes := received w k (to_probe deployers (healthyStackList s)) in
    match h_collect w k ((fun d => HealthChecking d config k) <$> probes)
            (healthyStackList s) with
    | inl e => inl e
    | inr l =>
        inr {| h_round := S k; healthyStackList := l;
               healthy := Nat.eqb (length l) (length deployers) |}
    end.

Fixpoint h_loop (w : World) (deployers : list DeployManager.t)
    (config : Config.t) (fuel : nat) (s : hstate) : result unit :=
  match fuel with
  | O => OutOfFuel
  | S fuel' =>
      if healthy s then Returns tt
      else match h_body w deployers config s with
           | inl e => Fails e
           | inr s' => h_loop w deployers config fuel' s'
           end
  end.

(** doHealthchecking checks if newly deployed autoscaling group is healthy *)
Definition doHealthchecking (w : World) (fuel : nat)
    (deployers : list DeployManager.t) (config : Config.t) : result unit :=
  h_loop w deployers config fuel h_init.

(** ** Termination convergence (cleanChecking) *)

Record cstate : Type := mkC {
  c_round : nat;
  doneStackList : list string;
  done : bool;
}.

Definition c_init : cstate :=
  {| c_round := 0; doneStackList := []; done := false |}.

(** [for stack, fin := range ret], termination variant. *)
Definition c_merge (entries : list (string * bool)) (l : list string) : list string :=
  foldl (fun acc (kv : string * bool) => if kv.2 then (acc ++ [kv.1])%list else acc) l entries.

Fixpoint c_collect (w : World) (k : nat) (rets : list (gmap string bool))
    (l : list string) : list string :=
  match rets with
  | [] => l
  | ret :: rets' =>
      c_collect w k rets' (c_merge (range_order w k (length rets) ret) l)
  end.

(** One turn of [for !done]. *)
Definition c_body (w : World) (deployers : list DeployManager.t)
    (config : Config.t) (s : cstate) : cstate :=
  let k := c_round s in
  let probes := received w k (to_probe deployers (doneStackList s)) in
  let l := c_collect w k ((fun d => TerminateChecking d config k) <$> probes)
             (doneStackList s) in
  {| c_round := S k; doneStackList := l;
     done := Nat.eqb (length l) (length deployers) |}.

Fixpoint c_loop (w : World) (deployers : list DeployManager.t)
    (config : Config.t) (fuel : nat) (s : cstate) : result unit :=
  match fuel with
  | O => OutOfFuel
  | S fuel' =>
      if done s then Returns tt
      else c_loop w deployers config fuel' (c_body w deployers config s)
  end.

(** cleanChecking cleans old autoscaling groups *)
Definition cleanChecking (w : World) (fuel : nat)
    (deployers : list DeployManager.t) (config : Config.t) : result unit :=
  c_loop w deployers config fuel c_init.

(** ** The states a poller goes through

    [h_iter_from s n] is the state at the top of the turn reached [n] turns
    after the turn that starts in [s], when the loop gets that far. *)

Fixpoint h_iter_from (w : World) (deployers : list DeployManager.t)
    (config : Config.t) (s : hstate) (n : nat) : option hstate :=
  match n with
  | O => Some s
  | S n' =>
      if healthy s then None
      else match h_body w deployers config s with
           | inl _ => None
           | inr s' => h_iter_from w deployers config s' n'
           end
  end.

Definition h_iter (w : World) (deployers : list DeployManager.t)
    (config : Config.t) (k : nat) : option hstate :=
  h_iter_from w deployers config h_init k.

Fixpoint c_iter_from (w : World) (deployers : list DeployManager.t)
    (config : Config.t) (s : cstate) (n : nat) : option cstate :=
  match n with
  | O => Some s
  | S n' =>
      if done s then None
      else c_iter_from w deployers config (c_body w deployers config s) n'
  end.

Definition c_iter (w : World) (deployers : list DeployManager.t)
    (config : Config.t) (k : nat) : option cstate :=
  c_iter_from w deployers config c_init k.

(** ** The three mutating modes

    What a run does to the outside is recorded as a trace of events; a mode
    is a computation that writes a trace and ends like a loop does. *)

Inductive operation : Type :=
| OpCheckPrevious
| OpDeploy
| OpSkipDeployStep
| OpFinishAdditionalWork
| OpTriggerLifecycleCallbacks
| OpCleanPreviousVersion
| OpGatherMetrics
| OpRunAPITest.

Inductive event : Type :=
| EvPrompt (message : string)
| EvGetDeployer (stack : string)
| EvCall (op : operation) (stack : string)
| EvLogError (op : operation) (stack : string) (e : error)
| EvWarn (message : string)
| EvShow (old new : Capacity)
| EvInspectorUpdate (asg : string) (capacity : Capacity).

Definition run (A : Type) : Type := (list event * result A)%type.

Definition run_ret {A : Type} (a : A) : run A := ([], Returns a).

Definition run_bind {A B : Type} (m : run A) (f : A -> run B) : run B :=
  match m with
  | (t, Returns a) => let (t', r) := f a in ((t ++ t')%list, r)
  | (t, Fails e) => (t, Fails e)
  | (t, OutOfFuel) => (t, OutOfFuel)
  end.

Global Instance run_mret : MRet run := @run_ret.
Global Instance run_mbind : MBind run := fun A B f m => run_bind m f.

Definition emit (e : event) : run unit := ([e], Returns tt).

(** [if err != nil { return err }] *)
Definition check (err : option error) : run unit :=
  ([], match err with None => Returns tt | Some e => Fails e end).

(** [v, err := f(); if err != nil { return err }] *)
Definition check_val {A : Type} (r : error + A) : run A :=
  ([], match r with inr a => Returns a | inl e => Fails e end).

(** A call of one of the two pollers. *)
Definition poll (r : result unit) : run unit := ([], r).

Definition trace {A : Type} (m : run A) : list event := m.1.
Definition verdict {A : Type} (m : run A) : result A := m.2.

(** The collaborators of the runner: summary printer, notification sender,
    metrics collector, deployer factory and inspector. *)

Record Group : Type := mkGroup {
  MinSize : Z;
  MaxSize : Z;
  DesiredCapacity : Z;
  AutoScalingGroupName : string;
}.

Record APITestTemplate : Type := mkAPITestTemplate {
  Name : string;
}.

Record Services : Type := mkServices {
  PrintSummary : string -> string -> option error;
  ValidClient : bool;
  SendSummaryMessage : Config.t -> list Stack.t -> option error;
  CheckStorage : option error;
  NewBlueGrean : string -> option APITestTemplate -> Stack.t -> string -> DeployManager.t;
  SelectStack : string -> error + string;
  GetStackInformation : string -> error + Group;
  InspectorUpdate : string -> Capacity -> option error;
  GenerateStack : string -> Group -> Stack.t;
}.

Module Builder.
Record t : Type := mk {
  Config : Config.t;
  Stacks : list Stack.t;
  APITestTemplates : list APITestTemplate;
  MetricConfigEnabled : bool;
}.
End Builder.

Record Runner : Type := mkRunner {
  Builder : Builder.t;
}.

Definition LocalCheck (w : World) (r : Runner) (message : string) : run unit :=
  if String.eqb (GOOS w) "darwin" && negb (Config.AutoApply (Builder.Config (Builder r)))
  then
    emit (EvPrompt message) ;;
    if negb (AskContinue w message) then check (Some ErrDeclined) else mret tt
  else mret tt.

(** CheckEnabledMetrics checks if metrics configuration is enabled or not *)
Definition CheckEnabledMetrics (sv : Services) (r : Runner) : run unit :=
  check (CheckStorage sv).

(** Generate new deployer.  The notification sender and the collector that
    the source stores in the new deployer are not part of the model. *)
Definition getDeployer (sv : Services) (stack : Stack.t)
    (apiTestTemplates : list APITestTemplate) (region : string) : run DeployManager.t :=
  let att :=
    if Stack.APITestEnabled stack
    then List.find (fun at_ => String.eqb (Name at_) (Stack.APITestTemplate stack))
           apiTestTemplates
    else None in
  emit (EvGetDeployer (Stack.Stack stack)) ;;
  mret (NewBlueGrean sv (Stack.ReplacementType stack) att stack region).

(** Prepare deployers: one for every stack that passes the stack filter. *)
Fixpoint prepareDeployers (sv : Services) (r : Runner) (stacks : list Stack.t)
  : run (list DeployManager.t) :=
  match stacks with
  | [] => mret []
  | stack :: stacks' =>
      let config := Builder.Config (Builder r) in
      if negb (String.eqb (Config.Stack config) "")
         && negb (String.eqb (Stack.Stack stack) (Config.Stack config))
      then prepareDeployers sv r stacks'
      else
        d ← getDeployer sv stack (Builder.APITestTemplates (Builder r))
               (Config.Region config) ;
        ds ← prepareDeployers sv r stacks' ;
        mret (d :: ds)
  end.

Definition invoke (op : operation) (d : DeployManager.t) (config : Config.t)
  : option error :=
  match op with
  | OpCheckPrevious => CheckPrevious d config
  | OpDeploy => DeployManager.Deploy d config
  | OpSkipDeployStep => None
  | OpFinishAdditionalWork => FinishAdditionalWork d config
  | OpTriggerLifecycleCallbacks => TriggerLifecycleCallbacks d config
  | OpCleanPreviousVersion => CleanPreviousVersion d config
  | OpGatherMetrics => GatherMetrics d config
  | OpRunAPITest => RunAPITest d config
  end.

(** One call of a lifecycle operation: an error is logged and dropped. *)
Definition attempt (op : operation) (d : DeployManager.t) (config : Config.t)
  : run unit :=
  emit (EvCall op (GetStackName d)) ;;
  match invoke op d config with
  | Some e => emit (EvLogError op (GetStackName d) e)
  | None => mret tt
  end.

(** [for _, d := range deployers { wg.Add(1); go body(d) }; wg.Wait()]: the
    goroutines of a phase run one after the other, in the order of the
    deployers. *)
Fixpoint forEach (deployers : list DeployManager.t)
    (body : DeployManager.t -> run unit) : run unit :=
  match deployers with
  | [] => mret tt
  | d :: deployers' => body d ;; forEach deployers' body
  end.

(** Deploy is the main function of `goployer deploy`.  Of the log lines only
    the warnings and the errors of the lifecycle operations are kept. *)
Definition Deploy (w : World) (sv : Services) (fuel : nat) (r : Runner) : run unit :=
  let config := Builder.Config (Builder r) in
  LocalCheck w r "Do you really want to deploy this application? " ;;
  check (PrintSummary sv (Config.Stack config) (Config.Region config)) ;;
  (if ValidClient sv then
     let stacks :=
       List.filter (fun s => String.eqb (Config.Stack config) ""
                             || String.eqb (Config.Stack config) (Stack.Stack s))
         (Builder.Stacks (Builder r)) in
     match SendSummaryMessage sv config stacks with
     | Some e => emit (EvWarn (Error e))
     | None => mret tt
     end
   else if negb (Config.SlackOff config)
        then emit (EvWarn "no slack variables exists. [ SLACK_TOKEN, SLACK_CHANNEL or SLACK_WEBHOOK_URL ]")
        else mret tt) ;;
  (if Builder.MetricConfigEnabled (Builder r) then CheckEnabledMetrics sv r
   else mret tt) ;;
  deployers ← prepareDeployers sv r (Builder.Stacks (Builder r)) ;
  forEach deployers (fun d =>
    attempt OpCheckPrevious d config ;;
    attempt OpDeploy d config) ;;
  poll (doHealthchecking w fuel deployers config) ;;
  forEach deployers (fun d =>
    attempt OpFinishAdditionalWork d config ;;
    attempt OpTriggerLifecycleCallbacks d config ;;
    attempt OpCleanPreviousVersion d config) ;;
  poll (cleanChecking w fuel deployers config) ;;
  forEach deployers (fun d => attempt OpGatherMetrics d config) ;;
  forEach deployers (fun d => attempt OpRunAPITest d config) ;;
  mret tt.

Definition set_SlackOff (b : bool) (c : Config.t) : Config.t :=
  Config.mk (Config.Stack c) (Config.Region c) (Config.Application c)
    (Config.AutoApply c) b (Config.Min c) (Config.Max c) (Config.Desired c)
    (Config.StartTimestamp c) (Config.Timeout c) (Config.PollingInterval c)
    (Config.DownSizingUpdate c) (Config.TargetAutoscalingGroup c)
    (Config.ForceManifestCapacity c).

Definition set_update_fields (downsizing : bool) (target : string) (c : Config.t)
  : Config.t :=
  Config.mk (Config.Stack c) (Config.Region c) (Config.Application c)
    (Config.AutoApply c) (Config.SlackOff c) (Config.Min c) (Config.Max c)
    (Config.Desired c) (Config.StartTimestamp c) (Config.Timeout c)
    (Config.PollingInterval c) downsizing target false.

(** Delete is the main function for `goployer delete` *)
Definition Delete (w : World) (sv : Services) (fuel : nat) (r : Runner) : run unit :=
  LocalCheck w r "Do you really want to delete applications? " ;;
  let r := {| Builder :=
                Builder.mk (set_SlackOff true (Builder.Config (Builder r)))
                  (Builder.Stacks (Builder r)) (Builder.APITestTemplates (Builder r))
                  (Builder.MetricConfigEnabled (Builder r)) |} in
  let config := Builder.Config (Builder r) in
  (if Builder.MetricConfigEnabled (Builder r) then CheckEnabledMetrics sv r
   else mret tt) ;;
  deployers ← prepareDeployers sv r (Builder.Stacks (Builder r)) ;
  forEach deployers (fun d =>
    attempt OpCheckPrevious d config ;;
    attempt OpSkipDeployStep d config ;;
    attempt OpTriggerLifecycleCallbacks d config ;;
    attempt OpCleanPreviousVersion d config) ;;
  poll (cleanChecking w fuel deployers config) ;;
  forEach deployers (fun d => attempt OpGatherMetrics d config) ;;
  mret tt.

(** The two capacities of the update mode: the one fetched and the one asked
    for. *)
Definition oldCapacity (group : Group) : Capacity :=
  makeCapacityStruct (MinSize group) (MaxSize group) (DesiredCapacity group).

Definition newCapacity (config : Config.t) (old : Capacity) : Capacity :=
  makeCapacityStruct (nullCheck (Config.Min config) (Min old))
    (nullCheck (Config.Max config) (Max old))
    (nullCheck (Config.Desired config) (Desired old)).

(** Update will changes configuration of current deployment on live *)
Definition Update (w : World) (sv : Services) (fuel : nat) (r : Runner) : run unit :=
  let config := Builder.Config (Builder r) in
  asg ← check_val (SelectStack sv (Config.Application config)) ;
  group ← check_val (GetStackInformation sv asg) ;
  let old := oldCapacity group in
  let new := newCapacity config old in
  check (CheckUpdateInformation old new) ;;
  emit (EvShow old new) ;;
  LocalCheck w r "Do you really want to update? " ;;
  emit (EvInspectorUpdate (AutoScalingGroupName group) new) ;;
  check (InspectorUpdate sv (AutoScalingGroupName group) new) ;;
  let stack := GenerateStack sv (Config.Region config) group in
  let config :=
    set_update_fields (Desired old >? Desired new)%Z (AutoScalingGroupName group)
      config in
  d ← getDeployer sv stack (Builder.APITestTemplates (Builder r))
        (Config.Region config) ;
  poll (doHealthchecking w fuel [d] config) ;;
  mret tt.

(** ** The dispatcher *)

(** checkManifestCommands checks if mode is needed to run manifest validation *)
Definition checkManifestCommands (mode : string) : bool :=
  IsStringInArray mode ["deploy"; "delete"].

(** The read-only part of the inspector, which only the status mode uses.
    [LaunchTemplateId] reads the identifier of the launch template of a
    group; of a launch template only the identifiers of its security groups
    are kept, of a security group only its name.  [PrintStatusSummary] stands
    for SetStatusSummary followed by Print. *)
Record StatusInspector : Type := mkStatusInspector {
  LaunchTemplateId : Group -> string;
  GetLaunchTemplateInformation : string -> error + list string;
  GetSecurityGroupsInformation : list string -> error + list string;
  PrintStatusSummary : Group -> list string -> option error;
}.

(** Status shows the detailed information about autoscaling deployment *)
Definition Status (sv : Services) (si : StatusInspector) (r : Runner) : run unit :=
  asg ← check_val (SelectStack sv (Config.Application (Builder.Config (Builder r)))) ;
  group ← check_val (GetStackInformation sv asg) ;
  launchTemplateInfo ← check_val (GetLaunchTemplateInformation si (LaunchTemplateId si group)) ;
  securityGroups ← check_val (GetSecurityGroupsInformation si launchTemplateInfo) ;
  check (PrintStatusSummary si group securityGroups) ;;
  mret tt.

(** The function map that NewRunner builds. *)
Definition FuncMapper (w : World) (sv : Services) (si : StatusInspector)
    (fuel : nat) (r : Runner) : gmap string (run unit) :=
  {[ "deploy" := Deploy w sv fuel r;
     "delete" := Delete w sv fuel r;
     "status" := Status sv si r;
     "update" := Update w sv fuel r ]}.

(** NewRunner creates a new runner.  The logger, the chat client and the
    collector that the source stores in the runner are not part of the model;
    the function map is [FuncMapper] above. *)
Definition NewRunner (newBuilder : Builder.t) (mode : string) : Runner * option error :=
  ({| Builder := newBuilder |}, None).

(** Run executes all required steps for deployments *)
Definition Run (w : World) (sv : Services) (si : StatusInspector) (fuel : nat)
    (r : Runner) (mode : string) : run unit :=
  match FuncMapper w sv si fuel r !! mode with
  | None => check (Some (ErrExternal ("no function exists to run for " +:+ mode)))
  | Some f => f
  end.

(** What Start needs besides: the validation of the configuration and the
    name of the application. *)
Record Validation : Type := mkValidation {
  CheckValidation : Builder.t -> option error;
  AwsConfigName : Builder.t -> string;
}.

(** The outcome of Start: the events of the run, the texts handed to
    SendSimpleMessage of the chat client afterwards, and the error
    returned. *)
Record started : Type := mkStarted {
  events : list event;
  messages : list string;
  returned : result unit;
}.

(** withRunner creates runner and runs the deployment process.  The post
    action is given by what it sends and what it returns; LogFormatting only
    configures the logger. *)
Definition withRunner (w : World) (sv : Services) (si : StatusInspector) (fuel : nat)
    (builderSt : Builder.t) (mode : string)
    (postAction : list string * option error) : started :=
  match NewRunner builderSt mode with
  | (_, Some err) => {| events := []; messages := []; returned := Fails err |}
  | (runner, None) =>
      match Run w sv si fuel runner mode with
      | (t, Returns _) =>
          {| events := t; messages := postAction.1;
             returned := match postAction.2 with
                         | None => Returns tt
                         | Some err => Fails err
                         end |}
      | (t, out) => {| events := t; messages := []; returned := out |}
      end
  end.

(** Start function is the starting point of all processes. *)
Definition Start (w : World) (sv : Services) (si : StatusInspector) (va : Validation)
    (fuel : nat) (builderSt : Builder.t) (mode : string) : started :=
  match (if checkManifestCommands mode then CheckValidation va builderSt else None) with
  | Some err => {| events := []; messages := []; returned := Fails err |}
  | None =>
      withRunner w sv si fuel builderSt mode
        (if negb (Config.SlackOff (Builder.Config builderSt)) then
           ((if String.eqb mode "deploy"
             then [":100: Deployment is done: " +:+ AwsConfigName va builderSt]
             else []) ++
            (if String.eqb mode "delete"
             then [":100: Delete process is done: " +:+ AwsConfigName va builderSt]
             else []))%list
         else [], None)
  end.

(** ** The modes init and add *)

(** The terminal and the initializer, as Initialize and AddManifest use
    them. [EmptyString] is the constant of that name of package constants. *)
Record Terminal : Type := mkTerminal {
  AskOne : string -> string;
  EmptyString : string;
  RunInit : string -> option error;
  RunAdd : string -> option error;
}.

Inductive init_event : Type :=
| EvAskName (message : string)
| EvRunInit (appName : string)
| EvRunAdd (appName : string).

(** askApplicationName gets application name from interactive terminal *)
Definition askApplicationName (tm : Terminal)
  : list init_event * (string * option error) :=
  let answer := AskOne tm "What is application name? " in
  ([EvAskName "What is application name? "],
   if String.eqb answer (EmptyString tm)
   then (EmptyString tm, Some (ErrExternal "canceled"))
   else (answer, None)).

(** Initialize creates necessary files for goployer *)
Definition Initialize (tm : Terminal) (args : list string)
  : list init_event * option error :=
  if (1 <? length args)%nat
  then ([], Some (ErrExternal "usage: goployer init <application name>"))
  else
    let '(t, (appName, err)) :=
      match args with
      | [] => askApplicationName tm
      | arg :: _ => ([], (arg, None))
      end in
    match err with
    | Some e => (t, Some e)
    | None => ((t ++ [EvRunInit appName])%list, RunInit tm appName)
    end.

(** AddManifest creates single manifest file *)
Definition AddManifest (tm : Terminal) (args : list string)
  : list init_event * option error :=
  if (1 <? length args)%nat
  then ([], Some (ErrExternal "usage: goployer add <application name>"))
  else
    let '(t, (appName, err)) :=
      match args with
      | [] => askApplicationName tm
      | arg :: _ => ([], (arg, None))
      end in
    match err with
    | Some e => (t, Some e)
    | None => ((t ++ [EvRunAdd appName])%list, RunAdd tm appName)
    end.

(** ** Paths in S3 *)

(** strings.HasPrefix *)
Definition HasPrefix (s prefix : string) : bool := String.prefix prefix s.

(** strings.ReplaceAll(s, old, ""): the occurrences of [old] in [s] are
    taken out, from left to right and without overlap; [skip] is the number
    of bytes of an occurrence still to be dropped. *)
Fixpoint remove_from (old : string) (skip : nat) (s : string) : string :=
  match s with
  | "" => ""
  | String c s' =>
      match skip with
      | S skip' => remove_from old skip' s'
      | O =>
          if String.prefix old s
          then remove_from old (String.length old - 1) s'
          else String c (remove_from old 0 s')
      end
  end.

Definition RemoveAll (s old : string) : string :=
  if String.eqb old "" then s else remove_from old 0 s.

(** strings.Split(s, sep) for a separator [sep] of one byte; [cur] is the
    piece read so far. *)
Fixpoint split_from (sep : Ascii.ascii) (cur : string) (s : string) : list string :=
  match s with
  | "" => [cur]
  | String c s' =>
      if Ascii.eqb c sep then cur :: split_from sep "" s'
      else split_from sep (cur +:+ String c "") s'
  end.

Definition Split (s : string) (sep : Ascii.ascii) : list string := split_from sep "" s.

(** strings.Join *)
Fixpoint Join (elems : list string) (sep : string) : string :=
  match elems with
  | [] => ""
  | [e] => e
  | e :: elems' => e +:+ sep +:+ Join elems' sep
  end.

(** FilterS3Path detects s3 path.  [S3Prefix] is the constant of that name
    of package constants.  [split[0]] exists because Split never returns an
    empty slice. *)
Definition FilterS3Path (S3Prefix : string) (path : string) : string * string :=
  let path := RemoveAll path S3Prefix in
  let split := Split path "/"%char in
  (hd "" split, Join (tl split) "/").

(** ** Setting up the builder *)

(** Package builder and the S3 service, as the setup functions use them.
    [Manifest], [ManifestS3Region] and [DisableMetrics] read the fields of
    these names of the configuration of a builder; [S3Prefix] and
    [MetricYamlPath] are the constants of package constants.  Of a metric
    configuration only the flag Enabled is kept. *)
Record BuilderPkg : Type := mkBuilderPkg {
  NewBuilder : option Config.t -> error + Builder.t;
  PreConfigValidation : Builder.t -> option error;
  Manifest : Builder.t -> string;
  ManifestS3Region : Builder.t -> string;
  DisableMetrics : Builder.t -> bool;
  SetManifestConfig : Builder.t -> Builder.t;
  SetManifestConfigWithS3 : Builder.t -> string -> Builder.t;
  GetManifest : string -> string -> string -> error + string;
  ParseMetricConfig : bool -> string -> error + bool;
  S3Prefix : string;
  MetricYamlPath : string;
}.

Inductive setup_event : Type :=
| EvPreConfigValidation
| EvSetManifestConfig
| EvGetManifest (region bucket key : string)
| EvParseMetricConfig.

(** builder.Builder{}, the zero value. *)
Definition zero_Builder : Builder.t :=
  {| Builder.Config :=
       {| Config.Stack := ""; Config.Region := ""; Config.Application := "";
          Config.AutoApply := false; Config.SlackOff := false;
          Config.Min := 0; Config.Max := 0; Config.Desired := 0;
          Config.StartTimestamp := 0; Config.Timeout := 0;
          Config.PollingInterval := 0; Config.DownSizingUpdate := false;
          Config.TargetAutoscalingGroup := ""; Config.ForceManifestCapacity := false |};
     Builder.Stacks := [];
     Builder.APITestTemplates := [];
     Builder.MetricConfigEnabled := false |}.

(** builderSt.MetricConfig = m *)
Definition set_MetricConfig (m : bool) (b : Builder.t) : Builder.t :=
  {| Builder.Config := Builder.Config b; Builder.Stacks := Builder.Stacks b;
     Builder.APITestTemplates := Builder.APITestTemplates b;
     Builder.MetricConfigEnabled := m |}.

(** setManifestToBuilder creates builderSt with manifest configurations *)
Definition setManifestToBuilder (pkg : BuilderPkg) (builderSt : Builder.t)
  : list setup_event * (Builder.t * option error) :=
  if negb (HasPrefix (Manifest pkg builderSt) (S3Prefix pkg))
  then ([EvSetManifestConfig], (SetManifestConfig pkg builderSt, None))
  else
    let '(bucket, key) := FilterS3Path (S3Prefix pkg) (Manifest pkg builderSt) in
    ([EvGetManifest (ManifestS3Region pkg builderSt) bucket key],
     match GetManifest pkg (ManifestS3Region pkg builderSt) bucket key with
     | inl err => (zero_Builder, Some err)
     | inr fileBytes => (SetManifestConfigWithS3 pkg builderSt fileBytes, None)
     end).

(** SetupBuilder setup builder struct for configuration *)
Definition SetupBuilder (pkg : BuilderPkg) (mode : string)
  : list setup_event * (Builder.t * option error) :=
  match NewBuilder pkg None with
  | inl err => ([], (zero_Builder, Some err))
  | inr builderSt =>
      if negb (checkManifestCommands mode) then ([], (builderSt, None))
      else
        match PreConfigValidation pkg builderSt with
        | Some err => ([EvPreConfigValidation], (builderSt, Some err))
        | None =>
            let '(t, (builderSt, err)) := setManifestToBuilder pkg builderSt in
            match err with
            | Some err => (EvPreConfigValidation :: t, (zero_Builder, Some err))
            | None =>
                ((EvPreConfigValidation :: t ++ [EvParseMetricConfig])%list,
                 match ParseMetricConfig pkg (DisableMetrics pkg builderSt)
                         (MetricYamlPath pkg) with
                 | inl err => (zero_Builder, Some err)
                 | inr m => (set_MetricConfig m builderSt, None)
                 end)
            end
        end
  end.

(** ServerSetup setup a goployer server *)
Definition ServerSetup (pkg : BuilderPkg) (config : Config.t)
  : list setup_event * (Builder.t * option error) :=
  match NewBuilder pkg (Some config) with
  | inl err => ([], (zero_Builder, Some err))
  | inr builderSt =>
      let '(t, (builderSt, err)) := setManifestToBuilder pkg builderSt in
      match err with
      | Some err => (t, (zero_Builder, Some err))
      | None =>
          ((t ++ [EvParseMetricConfig])%list,
           match ParseMetricConfig pkg (DisableMetrics pkg builderSt)
                   (MetricYamlPath pkg) with
           | inl err => (zero_Builder, Some err)
           | inr m => (set_MetricConfig m builderSt, None)
           end)
      end
  end.

(** ** Sample inputs *)

(** A deployer whose lifecycle operations succeed, with the given probes. *)
Definition sample_deployer (name : string)
    (health terminate : nat -> gmap string bool) : DeployManager.t :=
  {| GetStackName := name;
     CheckPrevious := fun _ => None;
     DeployManager.Deploy := fun _ => None;
     FinishAdditionalWork := fun _ => None;
     TriggerLifecycleCallbacks := fun _ => None;
     CleanPreviousVersion := fun _ => None;
     GatherMetrics := fun _ => None;
     RunAPITest := fun _ => None;
     HealthChecking := fun _ => health;
     TerminateChecking := fun _ => terminate |}.

(** A deployer whose lifecycle operations all fail. *)
Definition failing_deployer (name : string)
    (health terminate : nat -> gmap string bool) : DeployManager.t :=
  {| GetStackName := name;
     CheckPrevious := fun _ => Some (ErrExternal "check previous failed");
     DeployManager.Deploy := fun _ => Some (ErrExternal "deploy failed");
     FinishAdditionalWork := fun _ => Some (ErrExternal "additional work failed");
     TriggerLifecycleCallbacks := fun _ => Some (ErrExternal "callbacks failed");
     CleanPreviousVersion := fun _ => Some (ErrExternal "clean failed");
     GatherMetrics := fun _ => Some (ErrExternal "metrics failed");
     RunAPITest := fun _ => Some (ErrExternal "api test failed");
     HealthChecking := fun _ => health;
     TerminateChecking := fun _ => terminate |}.

(** Stack "A" is healthy from the second round on and terminated at once;
    stack "B" is healthy at once and terminated from the third round on. *)
Definition stack_a : DeployManager.t :=
  sample_deployer "A"
    (fun k => {["A" := bool_decide (1 ≤ k)%nat]}) (fun _ => {["A" := true]}).

Definition stack_b : DeployManager.t :=
  failing_deployer "B"
    (fun _ => {["B" := true]}) (fun k => {["B" := bool_decide (2 ≤ k)%nat]}).

(** Stack "C" answers with the error key in the second round of health
    checking and never reports its previous version gone. *)
Definition stack_c : DeployManager.t :=
  sample_deployer "C"
    (fun k => if bool_decide (1 ≤ k)%nat then {["error" := true]} else {["C" := false]})
    (fun _ => {["C" := false]}).

(** A Mac on which the operator declines every prompt; the clock always reads
    [time]; results arrive in the order of launch. *)
Definition sample_world (time : Z) : World :=
  {| GOOS := "darwin";
     AskContinue := fun _ => false;
     now := fun _ => time;
     arrival := fun _ count => seq 0 count;
     range_order := fun _ _ m => map_to_list m |}.

(** The same, with an operator who accepts. *)
Definition willing_world (time : Z) : World :=
  {| GOOS := "darwin";
     AskContinue := fun _ => true;
     now := fun _ => time;
     arrival := fun _ count => seq 0 count;
     range_order := fun _ _ m => map_to_list m |}.

(** Started at time 0 with a timeout of 10, no capacity override. *)
Definition sample_config : Config.t :=
  {| Config.Stack := ""; Config.Region := "ap-northeast-2";
     Config.Application := "hello"; Config.AutoApply := false;
     Config.SlackOff := true; Config.Min := (-1)%Z; Config.Max := (-1)%Z;
     Config.Desired := 4%Z; Config.StartTimestamp := 0%Z; Config.Timeout := 10%Z;
     Config.PollingInterval := 1%Z; Config.DownSizingUpdate := false;
     Config.TargetAutoscalingGroup := ""; Config.ForceManifestCapacity := false |}.

Definition sample_stack (name : string) : Stack.t :=
  {| Stack.Stack := name; Stack.APITestEnabled := false;
     Stack.APITestTemplate := ""; Stack.ReplacementType := "BlueGreen" |}.

Definition sample_services : Services :=
  {| PrintSummary := fun _ _ => None;
     ValidClient := false;
     SendSummaryMessage := fun _ _ => None;
     CheckStorage := None;
     NewBlueGrean := fun _ _ stack _ =>
       if String.eqb (Stack.Stack stack) "A" then stack_a else stack_b;
     SelectStack := fun _ => inr "hello-asg";
     GetStackInformation := fun _ =>
       inr {| MinSize := 1; MaxSize := 5; DesiredCapacity := 2;
              AutoScalingGroupName := "hello-asg" |};
     InspectorUpdate := fun _ _ => None;
     GenerateStack := fun _ _ => sample_stack "A" |}.

Definition sample_runner : Runner :=
  {| Builder :=
       {| Builder.Config := sample_config;
          Builder.Stacks := [sample_stack "A"; sample_stack "B"];
          Builder.APITestTemplates := [];
          Builder.MetricConfigEnabled := false |} |}.

(** ** Notions used to state the properties *)

(** The identifiers that the probes of the round begun in state [s] report
    true. *)
Definition h_reported (deployers : list DeployManager.t) (config : Config.t)
    (s : hstate) (x : string) : Prop :=
  ∃ d, d ∈ to_probe deployers (healthyStackList s) ∧
       HealthChecking d config (h_round s) !! x = Some true.

Definition c_reported (deployers : list DeployManager.t) (config : Config.t)
    (s : cstate) (x : string) : Prop :=
  ∃ d, d ∈ to_probe deployers (doneStackList s) ∧
       TerminateChecking d config (c_round s) !! x = Some true.

(** The three parts of the monotonicity of a poller.  [after k] is the list
    after [k] rounds, [probed k l] are the deployers probed in the round that
    follows when the list is [l], and [report d k] is what the probe of [d]
    answers in that round. *)
Definition done_set_monotone (after : nat → option (list string))
    (probed : nat → list string → list DeployManager.t)
    (report : DeployManager.t → nat → gmap string bool) : Prop :=
  ∀ (k : nat) (l : list string), after k = Some l →
    (∀ x, x ∈ l ↔
          ∃ (j : nat) lj d, (j < k)%nat ∧ after j = Some lj ∧
                            d ∈ probed j lj ∧ report d j !! x = Some true) ∧
    (∀ (j : nat) lj x, (j ≤ k)%nat → after j = Some lj → x ∈ lj → x ∈ l) ∧
    (∀ (j : nat) lj d, (j ≤ k)%nat → after j = Some lj →
                       d ∈ probed k l → GetStackName d ∉ lj).

(** The deadline of the health loop is passed at the deadline check number
    [k]. *)
Definition timed_out (w : World) (config : Config.t) (k : nat) : Prop :=
  (Config.Timeout config < now w k - Config.StartTimestamp config)%Z.

(** The sentence of the specification on the deadline, for a reference time
    [reference]: the timeout error is returned exactly when, at a round
    boundary, the time elapsed since [reference] exceeds the timeout and the
    set of healthy stacks is not yet the set of all stacks. *)
Definition timeout_iff_late_and_incomplete (reference : Z) (w : World)
    (deployers : list DeployManager.t) (config : Config.t) : Prop :=
  ∀ fuel : nat,
    doHealthchecking w fuel deployers config = Fails (ErrTimeout (Config.Timeout config)) ↔
    ∃ (k : nat) s, (k < fuel)%nat ∧ h_iter w deployers config k = Some s ∧
                   (Config.Timeout config < now w k - reference)%Z ∧
                   ¬ (∀ d, d ∈ deployers → GetStackName d ∈ healthyStackList s).

(** As the specification has it, the reference time is the time of the entry
    of the loop, that is of its first deadline check. *)
Definition timeout_counts_from_loop_entry (w : World)
    (deployers : list DeployManager.t) (config : Config.t) : Prop :=
  timeout_iff_late_and_incomplete (now w 0) w deployers config.

(** The contract of the deployers for the termination probe (section 4.1 of
    the specification): a probe answers with the single entry
    [{name: bool}]. *)
Definition answers_own_name (deployers : list DeployManager.t) (config : Config.t) : Prop :=
  ∀ d (k : nat), d ∈ deployers →
    ∃ b : bool, TerminateChecking d config k = {[GetStackName d := b]}.

Definition terminated_at (config : Config.t) (d : DeployManager.t) (k : nat) : Prop :=
  TerminateChecking d config k !! GetStackName d = Some true.

Global Instance terminated_at_dec config d k : Decision (terminated_at config d k).
Proof. unfold terminated_at. apply _. Defined.

(** What holds of the state of the termination loop under that contract. *)
Definition c_inv (deployers : list DeployManager.t) (config : Config.t)
    (s : cstate) : Prop :=
  NoDup (doneStackList s) ∧
  (∀ x, x ∈ doneStackList s →
        ∃ d (j : nat), d ∈ deployers ∧ (j < c_round s)%nat ∧
                       x = GetStackName d ∧ terminated_at config d j) ∧
  (∀ d (j : nat), d ∈ deployers → (j < c_round s)%nat →
                  terminated_at config d j → GetStackName d ∈ doneStackList s) ∧
  ((0 < c_round s)%nat →
   done s = Nat.eqb (length (doneStackList s)) (length deployers)).

(** The three rules on the new capacity, in the order in which the
    specification lists them, each with the error it stands for. *)
Definition capacity_rules : list ((Capacity -> bool) * error) :=
  [ (fun c => (Min c >? Max c)%Z, ErrMinOverMax);
    (fun c => (Min c >? Desired c)%Z, ErrMinOverDesired);
    (fun c => (Desired c >? Max c)%Z, ErrDesiredOverMax) ].

(** The events that change something outside: a deployer is constructed, a
    lifecycle operation of a deployer is called, the capacity of the live
    group is updated. *)
Definition mutating (ev : event) : bool :=
  match ev with
  | EvGetDeployer _ | EvCall _ _ | EvInspectorUpdate _ _ => true
  | _ => false
  end.

(** The same deployer with other outcomes for its lifecycle operations. *)
Definition with_outcomes (o : operation → Config.t → option error)
    (d : DeployManager.t) : DeployManager.t :=
  {| GetStackName := GetStackName d;
     CheckPrevious := o OpCheckPrevious;
     DeployManager.Deploy := o OpDeploy;
     FinishAdditionalWork := o OpFinishAdditionalWork;
     TriggerLifecycleCallbacks := o OpTriggerLifecycleCallbacks;
     CleanPreviousVersion := o OpCleanPreviousVersion;
     GatherMetrics := o OpGatherMetrics;
     RunAPITest := o OpRunAPITest;
     HealthChecking := HealthChecking d;
     TerminateChecking := TerminateChecking d |}.

Definition reassign (o : string → operation → Config.t → option error)
    (d : DeployManager.t) : DeployManager.t :=
  with_outcomes (o (GetStackName d)) d.

Definition with_deployers (f : DeployManager.t → DeployManager.t) (sv : Services) : Services :=
  {| PrintSummary := PrintSummary sv;
     ValidClient := ValidClient sv;
     SendSummaryMessage := SendSummaryMessage sv;
     CheckStorage := CheckStorage sv;
     NewBlueGrean := λ replacement att stack region,
       f (NewBlueGrean sv replacement att stack region);
     SelectStack := SelectStack sv;
     GetStackInformation := GetStackInformation sv;
     InspectorUpdate := InspectorUpdate sv;
     GenerateStack := GenerateStack sv |}.

Definition calls (t : list event) : list (operation * string) :=
  omap (λ ev, match ev with EvCall op stack => Some (op, stack) | _ => None end) t.

Definition same_run {A B} (R : A → B → Prop) (m1 : run A) (m2 : run B) : Prop :=
  calls (trace m1) = calls (trace m2) ∧
  match verdict m1, verdict m2 with
  | Returns a, Returns b => R a b
  | Fails e1, Fails e2 => e1 = e2
  | OutOfFuel, OutOfFuel => True
  | _, _ => False
  end.

(** ** Further sample inputs *)

(** The world of [willing_world] in which the results of a round arrive in
    the reverse of the order of launch. *)
Definition reversed_world (time : Z) : World :=
  {| GOOS := "darwin";
     AskContinue := fun _ => true;
     now := fun _ => time;
     arrival := fun _ count => rev (seq 0 count);
     range_order := fun _ _ m => map_to_list m |}.

(** A machine that is not a Mac: no prompt is shown. *)
Definition linux_world (time : Z) : World :=
  {| GOOS := "linux";
     AskContinue := fun _ => false;
     now := fun _ => time;
     arrival := fun _ count => seq 0 count;
     range_order := fun _ _ m => map_to_list m |}.

(** The sample runner restricted to one stack. *)
Definition runner_for (stack : string) : Runner :=
  {| Builder :=
       {| Builder.Config :=
            Config.mk stack (Config.Region sample_config)
              (Config.Application sample_config) (Config.AutoApply sample_config)
              (Config.SlackOff sample_config) (Config.Min sample_config)
              (Config.Max sample_config) (Config.Desired sample_config)
              (Config.StartTimestamp sample_config) (Config.Timeout sample_config)
              (Config.PollingInterval sample_config)
              (Config.DownSizingUpdate sample_config)
              (Config.TargetAutoscalingGroup sample_config)
              (Config.ForceManifestCapacity sample_config);
          Builder.Stacks := [sample_stack "A"; sample_stack "B"];
          Builder.APITestTemplates := [];
          Builder.MetricConfigEnabled := false |} |}.

(** The sample runner without any capacity override. *)
Definition idle_runner : Runner :=
  {| Builder :=
       {| Builder.Config :=
            Config.mk "" (Config.Region sample_config)
              (Config.Application sample_config) (Config.AutoApply sample_config)
              (Config.SlackOff sample_config) (-1) (-1) (-1)
              (Config.StartTimestamp sample_config) (Config.Timeout sample_config)
              (Config.PollingInterval sample_config)
              (Config.DownSizingUpdate sample_config)
              (Config.TargetAutoscalingGroup sample_config)
              (Config.ForceManifestCapacity sample_config);
          Builder.Stacks := [sample_stack "A"; sample_stack "B"];
          Builder.APITestTemplates := [];
          Builder.MetricConfigEnabled := false |} |}.

(** The builder of the sample runner with the chat turned on. *)
Definition chatty_builder : Builder.t :=
  {| Builder.Config := set_SlackOff false sample_config;
     Builder.Stacks := [sample_stack "A"; sample_stack "B"];
     Builder.APITestTemplates := [];
     Builder.MetricConfigEnabled := false |}.

Definition sample_inspector : StatusInspector :=
  {| LaunchTemplateId := fun _ => "lt-1";
     GetLaunchTemplateInformation := fun _ => inr ["sg-1"];
     GetSecurityGroupsInformation := fun ids => inr ids;
     PrintStatusSummary := fun _ _ => None |}.

Definition sample_validation : Validation :=
  {| CheckValidation := fun _ => None;
     AwsConfigName := fun _ => "hello" |}.

(** An operator who answers "hello" at the prompt for the name. *)
Definition sample_terminal : Terminal :=
  {| AskOne := fun _ => "hello";
     EmptyString := "";
     RunInit := fun _ => None;
     RunAdd := fun _ => None |}.

(** A builder package whose manifest lies in S3. *)
Definition sample_pkg : BuilderPkg :=
  {| NewBuilder := fun _ => inr (Builder sample_runner);
     PreConfigValidation := fun _ => None;
     Manifest := fun _ => "s3://bucket/path/manifest.yaml";
     ManifestS3Region := fun _ => "ap-northeast-2";
     DisableMetrics := fun _ => true;
     SetManifestConfig := fun b => b;
     SetManifestConfigWithS3 := fun b _ => b;
     GetManifest := fun _ _ _ => inr "name: hello";
     ParseMetricConfig := fun _ _ => inr false;
     S3Prefix := "s3://";
     MetricYamlPath := "metrics.yaml" |}.

(** ** Notions used to state the further properties *)

(** The health probe of [d] in round [k] reports the stack of [d] healthy. *)
Definition healthy_at (config : Config.t) (d : DeployManager.t) (k : nat) : Prop :=
  HealthChecking d config k !! GetStackName d = Some true.

Global Instance healthy_at_dec config d k : Decision (healthy_at config d k).
Proof. unfold healthy_at. apply _. Defined.

(** The contract of the deployers for the health probe: no stack is named
    "error", and a probe answers with the single entry [{name: bool}] or with
    the single entry [{"error": true}]. *)
Definition health_contract (deployers : list DeployManager.t) (config : Config.t) : Prop :=
  ∀ d (k : nat), d ∈ deployers →
    GetStackName d ≠ "error" ∧
    ((∃ b : bool, HealthChecking d config k = {[GetStackName d := b]}) ∨
     HealthChecking d config k = {["error" := true]}).

(** What holds of the state of the health loop under that contract. *)
Definition h_inv (deployers : list DeployManager.t) (config : Config.t)
    (s : hstate) : Prop :=
  NoDup (healthyStackList s) ∧
  (∀ x, x ∈ healthyStackList s →
        ∃ d (j : nat), d ∈ deployers ∧ (j < h_round s)%nat ∧
                       x = GetStackName d ∧ healthy_at config d j) ∧
  (∀ d (j : nat), d ∈ deployers → (j < h_round s)%nat →
                  healthy_at config d j → GetStackName d ∈ healthyStackList s) ∧
  ((0 < h_round s)%nat →
   healthy s = Nat.eqb (length (healthyStackList s)) (length deployers)).

(** The keys that a merge appends: those with value true, the key "error"
    left out for the health loop. *)
Definition true_keys (skip_error : bool) (entries : list (string * bool)) : list string :=
  (filter (λ kv : string * bool,
             kv.2 = true ∧ (skip_error = true → kv.1 ≠ "error")) entries).*1.

(** Two states of a poller that differ in the order of the list only. *)
Definition h_same (s1 s2 : hstate) : Prop :=
  h_round s1 = h_round s2 ∧ healthy s1 = healthy s2 ∧
  healthyStackList s1 ≡ₚ healthyStackList s2.

Definition c_same (s1 s2 : cstate) : Prop :=
  c_round s1 = c_round s2 ∧ done s1 = done s2 ∧
  doneStackList s1 ≡ₚ doneStackList s2.

(** The stacks that pass the stack filter of the configuration. *)
Definition in_scope (config : Config.t) (stack : Stack.t) : Prop :=
  Config.Stack config = "" ∨ Stack.Stack stack = Config.Stack config.

Global Instance in_scope_dec config stack : Decision (in_scope config stack).
Proof. unfold in_scope. apply _. Defined.

(** The deployer that [getDeployer] builds for a stack. *)
Definition deployer_of (sv : Services) (r : Runner) (stack : Stack.t) : DeployManager.t :=
  NewBlueGrean sv (Stack.ReplacementType stack)
    (if Stack.APITestEnabled stack
     then List.find (λ at_, String.eqb (Name at_) (Stack.APITestTemplate stack))
            (Builder.APITestTemplates (Builder r))
     else None) stack (Config.Region (Builder.Config (Builder r))).

(** The stacks a run works on. *)
Definition chosen_stacks (r : Runner) : list Stack.t :=
  filter (in_scope (Builder.Config (Builder r))) (Builder.Stacks (Builder r)).

(** The lifecycle operations of the deploy mode and of the delete mode. *)
Definition deploy_operations : list operation :=
  [OpCheckPrevious; OpDeploy; OpFinishAdditionalWork; OpTriggerLifecycleCallbacks;
   OpCleanPreviousVersion; OpGatherMetrics; OpRunAPITest].

Definition delete_operations : list operation :=
  [OpCheckPrevious; OpSkipDeployStep; OpTriggerLifecycleCallbacks;
   OpCleanPreviousVersion; OpGatherMetrics].

(** [c] is one of the bytes of [s]. *)
Fixpoint has_byte (c : Ascii.ascii) (s : string) : bool :=
  match s with
  | "" => false
  | String c' s' => Ascii.eqb c' c || has_byte c s'
  end.

(** [old] occurs somewhere in [s]. *)
Fixpoint occurs (old s : string) : bool :=
  match s with
  | "" => String.prefix old ""
  | String _ s' => String.prefix old s || occurs old s'
  end.

(** ** The sentence of the specification on the termination loop *)

(** The sentence of the specification on the termination loop, for any
    deployers: when every deployer reports true in some round the loop ends
    with nil under every clock, and when some deployer never reports true the
    loop has no end. *)
Definition ends_iff_all_report (w : World)
    (deployers : list DeployManager.t) (config : Config.t) : Prop :=
  ((∀ d, d ∈ deployers → ∃ k : nat, terminated_at config d k) →
   ∃ n : nat, ∀ (fuel : nat) (clock : nat → Z), (n ≤ fuel)%nat →
     cleanChecking (with_clock w clock) fuel deployers config = Returns tt)
  ∧
  ((∃ d, d ∈ deployers ∧ ∀ k : nat, ¬ terminated_at config d k) →
   ∀ (fuel : nat) (clock : nat → Z),
     cleanChecking (with_clock w clock) fuel deployers config = OutOfFuel).



(** A deployer of stack "A" whose termination probe also answers for a
    stack "Z". *)
Definition stack_az : DeployManager.t :=
  sample_deployer "A"
    (fun _ => {["A" := true]}) (fun _ => {["A" := true; "Z" := true]}).

(** A clock that reads 5 at the first deadline check and 100 from the second
    one on. *)
Definition late_clock (k : nat) : Z := if (k <? 1)%nat then 5 else 100.

(** * Properties *)

(** ** Helpers *)

Lemma sample_world_ok time : world_ok (sample_world time).
Proof. split; intros; reflexivity. Qed.

Lemma willing_world_ok time : world_ok (willing_world time).
Proof. split; intros; reflexivity. Qed.

Lemma IsStringInArray_true s arr : IsStringInArray s arr = true <-> s ∈ arr.
Proof.
  induction arr as [|a arr IH]; simpl.
  - split; [discriminate | intros H; inversion H].
  - destruct (String.eqb_spec a s) as [->|Hne].
    + split; [intros _; left | reflexivity].
    + rewrite IH. split; [intros H; by right|].
      intros H. inversion H; subst; [congruence | assumption].
Qed.

Lemma IsStringInArray_false s arr : IsStringInArray s arr = false <-> s ∉ arr.
Proof.
  rewrite <- IsStringInArray_true. destruct (IsStringInArray s arr); naive_solver.
Qed.

Lemma to_probe_elem deployers l d :
  d ∈ to_probe deployers l ↔ (GetStackName d ∉ l) ∧ d ∈ deployers.
Proof. unfold to_probe. by rewrite list_elem_of_filter, IsStringInArray_false. Qed.

Lemma h_merge_prefix entries l : l `prefix_of` h_merge entries l.
Proof.
  unfold h_merge. revert l. induction entries as [|[key val] entries IH]; intros l; simpl.
  - done.
  - destruct (String.eqb key "error"); [apply IH|].
    destruct val; [|apply IH].
    etrans; [|apply IH]. by apply prefix_app_r.
Qed.

Lemma c_merge_prefix entries l : l `prefix_of` c_merge entries l.
Proof.
  unfold c_merge. revert l. induction entries as [|[key val] entries IH]; intros l; simpl.
  - done.
  - destruct val; [|apply IH].
    etrans; [|apply IH]. by apply prefix_app_r.
Qed.

Lemma h_merge_elem entries l x :
  x ∈ h_merge entries l <-> x ∈ l \/ (x <> "error" /\ (x, true) ∈ entries).
Proof.
  unfold h_merge. revert l. induction entries as [|[key val] entries IH]; intros l; simpl.
  - split; [by left | intros [H|[_ H]]; [done | inversion H]].
  - rewrite IH. clear IH. destruct (String.eqb_spec key "error") as [->|Hne].
    + split; [intros [H|[H1 H2]]; [by left | right; split; [done | by right]] |].
      intros [H|[H1 H2]]; [by left|]. right. split; [done|].
      inversion H2; subst; [congruence | done].
    + destruct val.
      * rewrite elem_of_app, list_elem_of_singleton.
        split.
        -- intros [[H| ->]|[H1 H2]]; [by left | right; split; [done | left] | right; split; [done | by right]].
        -- intros [H|[H1 H2]]; [by left; left |].
           inversion H2; subst; [left; by right | right; by split].
      * split; [intros [H|[H1 H2]]; [by left | right; split; [done | by right]] |].
        intros [H|[H1 H2]]; [by left|]. right. split; [done|].
        inversion H2; subst; done.
Qed.

Lemma c_merge_elem entries l x :
  x ∈ c_merge entries l <-> x ∈ l \/ (x, true) ∈ entries.
Proof.
  unfold c_merge. revert l. induction entries as [|[key val] entries IH]; intros l; simpl.
  - split; [by left | intros [H|H]; [done | inversion H]].
  - rewrite IH. clear IH. destruct val.
    + rewrite elem_of_app, list_elem_of_singleton.
      split.
      * intros [[H| ->]|H]; [by left | right; left | right; by right].
      * intros [H|H]; [by left; left |].
        inversion H; subst; [left; by right | by right].
    + split; [intros [H|H]; [by left | right; by right] |].
      intros [H|H]; [by left|]. right. inversion H; subst; done.
Qed.

Lemma omap_lookup_cons {A} (a : A) (l : list A) (order : list nat) :
  omap (λ i, (a :: l) !! i) (S <$> order) = omap (λ i, l !! i) order.
Proof.
  induction order as [|i order IH]; [done|]. csimpl. by rewrite IH.
Qed.

Lemma deliver_seq {A} (l : list A) : omap (λ i, l !! i) (seq 0 (length l)) = l.
Proof.
  induction l as [|a l IH]; [done|]. simpl. f_equal.
  by rewrite <- fmap_S_seq, omap_lookup_cons.
Qed.

Lemma deliver_fmap {A B} (f : A → B) (order : list nat) (l : list A) :
  deliver order (f <$> l) = f <$> deliver order l.
Proof.
  unfold deliver. induction order as [|i order IH]; [done|]. csimpl.
  rewrite list_lookup_fmap. destruct (l !! i); csimpl; by rewrite IH.
Qed.

Section Pollers.
Context (w : World) (Hw : world_ok w).
Context (deployers : list DeployManager.t) (config : Config.t).

Lemma range_elem k count (m : gmap string bool) x b :
  (x, b) ∈ range_order w k count m ↔ m !! x = Some b.
Proof. by rewrite (range_perm w Hw k count m), elem_of_map_to_list. Qed.

Lemma received_perm k (l : list DeployManager.t) : received w k l ≡ₚ l.
Proof.
  unfold received, deliver. rewrite (arrival_perm w Hw). apply Permutation_refl', deliver_seq.
Qed.

Lemma arrival_elem k (l : list DeployManager.t) d :
  d ∈ received w k l ↔ d ∈ l.
Proof. by rewrite received_perm. Qed.

(** *** The collector of a round *)

Lemma h_collect_inl k rets l e :
  h_collect w k rets l = inl e → e = ErrHealthcheck.
Proof.
  revert l. induction rets as [|ret rets IH]; intros l; simpl; [done|].
  destruct (default false (ret !! "error")); [congruence | apply IH].
Qed.

Lemma h_collect_sentinel k rets l ret :
  ret ∈ rets → ret !! "error" = Some true →
  h_collect w k rets l = inl ErrHealthcheck.
Proof.
  revert l. induction rets as [|r rets IH]; intros l Hin Hret; [inversion Hin|].
  simpl. destruct (default false (r !! "error")) eqn:Hr; [done|].
  inversion Hin; subst; [by rewrite Hret in Hr | by apply IH].
Qed.

Lemma h_collect_inr k rets l l' :
  h_collect w k rets l = inr l' →
  l `prefix_of` l' ∧
  ∀ x, x ∈ l' ↔ x ∈ l ∨ ∃ ret, ret ∈ rets ∧ ret !! x = Some true.
Proof.
  revert l. induction rets as [|ret rets IH]; intros l; simpl.
  - intros [= <-]. split; [done|]. intros x. split; [by left|].
    intros [H|(ret & H & _)]; [done | inversion H].
  - destruct (default false (ret !! "error")) eqn:Herr; [done|].
    intros H. apply IH in H as [Hpre Hel]. split.
    + etrans; [apply h_merge_prefix | exact Hpre].
    + intros x. rewrite Hel, h_merge_elem, range_elem. split.
      * intros [[H|[_ H]]|(r & Hr & Hx)]; [by left | right; exists ret; split; [left | done] |].
        right. exists r. split; [by right | done].
      * intros [H|(r & Hr & Hx)]; [by left; left|].
        inversion Hr; subst; [|right; by exists r].
        left. right. split; [|done]. intros ->. by rewrite Hx in Herr.
Qed.

Lemma c_collect_spec k rets l :
  l `prefix_of` c_collect w k rets l ∧
  ∀ x, x ∈ c_collect w k rets l ↔ x ∈ l ∨ ∃ ret, ret ∈ rets ∧ ret !! x = Some true.
Proof.
  revert l. induction rets as [|ret rets IH]; intros l; simpl.
  - split; [done|]. intros x. split; [by left|].
    intros [H|(ret & H & _)]; [done | inversion H].
  - destruct (IH (c_merge (range_order w k (S (length rets)) ret) l)) as [Hpre Hel].
    split.
    + etrans; [apply c_merge_prefix | exact Hpre].
    + intros x. rewrite Hel, c_merge_elem, range_elem. split.
      * intros [[H|H]|(r & Hr & Hx)]; [by left | right; exists ret; split; [left | done] |].
        right. exists r. split; [by right | done].
      * intros [H|(r & Hr & Hx)]; [by left; left|].
        inversion Hr; subst; [left; by right | right; by exists r].
Qed.

(** *** One turn of each loop *)

Lemma h_body_inr s s' :
  h_body w deployers config s = inr s' →
  (Config.Timeout config <? now w (h_round s) - Config.StartTimestamp config)%Z = false ∧
  h_round s' = S (h_round s) ∧
  healthy s' = Nat.eqb (length (healthyStackList s')) (length deployers) ∧
  healthyStackList s `prefix_of` healthyStackList s' ∧
  ∀ x, x ∈ healthyStackList s' ↔ x ∈ healthyStackList s ∨ h_reported deployers config s x.
Proof.
  unfold h_body, CheckTimeout.
  destruct (_ <? _)%Z; [done|].
  destruct (h_collect _ _ _ _) as [e|l] eqn:Hc; [done|].
  intros [= <-]. simpl. apply h_collect_inr in Hc as [Hpre Hel].
  repeat split; try done.
  - intros Hx. apply Hel in Hx as [Hx|(ret & Hret & Hx)]; [by left|]. right.
    apply list_elem_of_fmap in Hret as (d & -> & Hd). apply arrival_elem in Hd.
    by exists d.
  - intros [Hx|(d & Hd & Hx)]; apply Hel; [by left|]. right.
    exists (HealthChecking d config (h_round s)). split; [|done].
    apply list_elem_of_fmap. exists d. split; [done|]. by apply arrival_elem.
Qed.

Lemma c_body_spec s :
  let s' := c_body w deployers config s in
  c_round s' = S (c_round s) ∧
  done s' = Nat.eqb (length (doneStackList s')) (length deployers) ∧
  doneStackList s `prefix_of` doneStackList s' ∧
  ∀ x, x ∈ doneStackList s' ↔ x ∈ doneStackList s ∨ c_reported deployers config s x.
Proof.
  simpl. destruct (c_collect_spec (c_round s)
    ((λ d, TerminateChecking d config (c_round s)) <$>
       received w (c_round s) (to_probe deployers (doneStackList s)))
    (doneStackList s)) as [Hpre Hel].
  repeat split; try done.
  - intros Hx. apply Hel in Hx as [Hx|(ret & Hret & Hx)]; [by left|]. right.
    apply list_elem_of_fmap in Hret as (d & -> & Hd). apply arrival_elem in Hd.
    by exists d.
  - intros [Hx|(d & Hd & Hx)]; apply Hel; [by left|]. right.
    exists (TerminateChecking d config (c_round s)). split; [|done].
    apply list_elem_of_fmap. exists d. split; [done|]. by apply arrival_elem.
Qed.

(** *** The states of the loops *)

Lemma h_iter_from_add s j m :
  h_iter_from w deployers config s (j + m) =
  h_iter_from w deployers config s j ≫= λ sj, h_iter_from w deployers config sj m.
Proof.
  revert s. induction j as [|j IH]; intros s; simpl; [done|].
  destruct (healthy s); [done|].
  destruct (h_body w deployers config s); [done | apply IH].
Qed.

Lemma h_iter_succ k s' :
  h_iter w deployers config (S k) = Some s' ↔
  ∃ s, h_iter w deployers config k = Some s ∧ healthy s = false ∧
       h_body w deployers config s = inr s'.
Proof.
  unfold h_iter. replace (S k) with (k + 1)%nat by lia. rewrite h_iter_from_add.
  destruct (h_iter_from w deployers config h_init k) as [s|]; simpl.
  - destruct (healthy s) eqn:Hh.
    + split; [done | by intros (s0 & [= <-] & ? & _); congruence].
    + destruct (h_body w deployers config s) as [e|s1] eqn:Hb.
      * split; [done | by intros (s0 & [= <-] & _ & ?); congruence].
      * split; [intros [= ->]; by exists s |].
        intros (s0 & [= <-] & _ & ?); congruence.
  - split; [done | by intros (s0 & ? & _)].
Qed.

Lemma h_iter_le (j k : nat) sk :
  (j ≤ k)%nat → h_iter w deployers config k = Some sk →
  ∃ sj, h_iter w deployers config j = Some sj ∧
        h_iter_from w deployers config sj (k - j) = Some sk.
Proof.
  intros Hjk. unfold h_iter. replace k with (j + (k - j))%nat at 1 by lia.
  rewrite h_iter_from_add.
  destruct (h_iter_from w deployers config h_init j) as [sj|]; [|done].
  simpl. intros H. by exists sj.
Qed.

Lemma h_loop_iter s n s' fuel :
  h_iter_from w deployers config s n = Some s' →
  h_loop w deployers config (n + fuel) s = h_loop w deployers config fuel s'.
Proof.
  revert s. induction n as [|n IH]; intros s; simpl; [by intros [= ->]|].
  destruct (healthy s); [done|].
  destruct (h_body w deployers config s); [done | apply IH].
Qed.

Lemma c_iter_from_add s j m :
  c_iter_from w deployers config s (j + m) =
  c_iter_from w deployers config s j ≫= λ sj, c_iter_from w deployers config sj m.
Proof.
  revert s. induction j as [|j IH]; intros s; simpl; [done|].
  destruct (done s); [done | apply IH].
Qed.

Lemma c_iter_succ k s' :
  c_iter w deployers config (S k) = Some s' ↔
  ∃ s, c_iter w deployers config k = Some s ∧ done s = false ∧
       s' = c_body w deployers config s.
Proof.
  unfold c_iter. replace (S k) with (k + 1)%nat by lia. rewrite c_iter_from_add.
  destruct (c_iter_from w deployers config c_init k) as [s|]; simpl.
  - destruct (done s) eqn:Hd.
    + split; [done | by intros (s0 & [= <-] & ? & _); congruence].
    + split; [intros [= <-]; by exists s |].
      by intros (s0 & [= <-] & _ & ->).
  - split; [done | by intros (s0 & ? & _)].
Qed.

Lemma c_iter_le (j k : nat) sk :
  (j ≤ k)%nat → c_iter w deployers config k = Some sk →
  ∃ sj, c_iter w deployers config j = Some sj ∧
        c_iter_from w deployers config sj (k - j) = Some sk.
Proof.
  intros Hjk. unfold c_iter. replace k with (j + (k - j))%nat at 1 by lia.
  rewrite c_iter_from_add.
  destruct (c_iter_from w deployers config c_init j) as [sj|]; [|done].
  simpl. intros H. by exists sj.
Qed.

Lemma h_iter_from_grows s n s' :
  h_iter_from w deployers config s n = Some s' →
  h_round s' = (h_round s + n)%nat ∧
  healthyStackList s `prefix_of` healthyStackList s'.
Proof.
  revert s. induction n as [|n IH]; intros s; simpl.
  - intros [= ->]. split; [lia | done].
  - destruct (healthy s); [done|].
    destruct (h_body w deployers config s) as [|s1] eqn:Hb; [done|].
    intros H. apply IH in H as [Hr Hp].
    apply h_body_inr in Hb as (_ & Hr1 & _ & Hp1 & _).
    split; [lia | by etrans].
Qed.

Lemma c_iter_from_grows s n s' :
  c_iter_from w deployers config s n = Some s' →
  c_round s' = (c_round s + n)%nat ∧
  doneStackList s `prefix_of` doneStackList s'.
Proof.
  revert s. induction n as [|n IH]; intros s; simpl.
  - intros [= ->]. split; [lia | done].
  - destruct (done s); [done|].
    intros H. apply IH in H as [Hr Hp].
    destruct (c_body_spec s) as (Hr1 & _ & Hp1 & _).
    split; [lia | by etrans].
Qed.

Lemma h_iter_round k s : h_iter w deployers config k = Some s → h_round s = k.
Proof. intros H. by apply h_iter_from_grows in H as [-> _]. Qed.

Lemma c_iter_round k s : c_iter w deployers config k = Some s → c_round s = k.
Proof. intros H. by apply c_iter_from_grows in H as [-> _]. Qed.

(** *** What the lists hold after [k] rounds *)

Lemma h_iter_elems k s :
  h_iter w deployers config k = Some s →
  ∀ x, x ∈ healthyStackList s ↔
       ∃ (j : nat) sj, (j < k)%nat ∧ h_iter w deployers config j = Some sj ∧
                       h_reported deployers config sj x.
Proof.
  revert s. induction k as [|k IH]; intros s.
  - intros [= <-] x. simpl. split; [intros H; inversion H|].
    intros (j & _ & Hj & _). lia.
  - intros (s0 & Hs0 & _ & Hb)%h_iter_succ x.
    apply h_body_inr in Hb as (_ & _ & _ & _ & Hel).
    rewrite Hel, (IH _ Hs0). split.
    + intros [(j & sj & Hj & Hsj & Hx)|Hx].
      * exists j, sj. split; [lia | done].
      * exists k, s0. split; [lia | done].
    + intros (j & sj & Hj & Hsj & Hx).
      destruct (decide (j = k)) as [->|Hne].
      * right. rewrite Hs0 in Hsj. by injection Hsj as ->.
      * left. exists j, sj. split; [lia | done].
Qed.

Lemma c_iter_elems k s :
  c_iter w deployers config k = Some s →
  ∀ x, x ∈ doneStackList s ↔
       ∃ (j : nat) sj, (j < k)%nat ∧ c_iter w deployers config j = Some sj ∧
                       c_reported deployers config sj x.
Proof.
  revert s. induction k as [|k IH]; intros s.
  - intros [= <-] x. simpl. split; [intros H; inversion H|].
    intros (j & _ & Hj & _). lia.
  - intros (s0 & Hs0 & _ & ->)%c_iter_succ x.
    destruct (c_body_spec s0) as (_ & _ & _ & Hel).
    rewrite Hel, (IH _ Hs0). split.
    + intros [(j & sj & Hj & Hsj & Hx)|Hx].
      * exists j, sj. split; [lia | done].
      * exists k, s0. split; [lia | done].
    + intros (j & sj & Hj & Hsj & Hx).
      destruct (decide (j = k)) as [->|Hne].
      * right. rewrite Hs0 in Hsj. by injection Hsj as ->.
      * left. exists j, sj. split; [lia | done].
Qed.

Lemma h_iter_prefix (j k : nat) sj sk :
  (j ≤ k)%nat → h_iter w deployers config j = Some sj →
  h_iter w deployers config k = Some sk →
  healthyStackList sj `prefix_of` healthyStackList sk.
Proof.
  intros Hjk Hj Hk. destruct (h_iter_le j k sk Hjk Hk) as (sj' & Hj' & Hfrom).
  rewrite Hj in Hj'. injection Hj' as <-.
  by apply h_iter_from_grows in Hfrom as [_ ?].
Qed.

Lemma c_iter_prefix (j k : nat) sj sk :
  (j ≤ k)%nat → c_iter w deployers config j = Some sj →
  c_iter w deployers config k = Some sk →
  doneStackList sj `prefix_of` doneStackList sk.
Proof.
  intros Hjk Hj Hk. destruct (c_iter_le j k sk Hjk Hk) as (sj' & Hj' & Hfrom).
  rewrite Hj in Hj'. injection Hj' as <-.
  by apply c_iter_from_grows in Hfrom as [_ ?].
Qed.

End Pollers.

(** C1.  In both pollers the list of finished stacks only grows: after [k]
    rounds it holds exactly the identifiers that some probe of the rounds run
    so far reported true, an identifier that is in it after some round is in
    it after every later round, and no deployer whose name is in it is probed
    in a later round. *)
Theorem done_set_grows_and_is_not_probed_again
    (w : World) (deployers : list DeployManager.t) (config : Config.t) :
  world_ok w →
  done_set_monotone
    (λ k, healthyStackList <$> h_iter w deployers config k)
    (λ k l, received w k (to_probe deployers l))
    (λ d k, HealthChecking d config k)
  ∧
  done_set_monotone
    (λ k, doneStackList <$> c_iter w deployers config k)
    (λ k l, received w k (to_probe deployers l))
    (λ d k, TerminateChecking d config k).
Proof.
  intros Hw. split.
  - intros k l (s & Hs & ->)%fmap_Some. repeat split.
    + intros (j & sj & Hj & Hsj & d & Hd & Hx)%(h_iter_elems w Hw deployers config k s Hs).
      exists j, (healthyStackList sj), d. cbn beta. rewrite Hsj.
      rewrite (h_iter_round w Hw _ _ _ _ Hsj) in Hx.
      repeat split; [done.. | by apply arrival_elem | done].
    + intros (j & lj & d & Hj & (sj & Hsj & ->)%fmap_Some & Hd%arrival_elem & Hx); [|done].
      apply (h_iter_elems w Hw deployers config k s Hs).
      exists j, sj. repeat split; [done..|]. exists d.
      by rewrite (h_iter_round w Hw _ _ _ _ Hsj).
    + intros j lj x Hj (sj & Hsj & ->)%fmap_Some Hx.
      eapply elem_of_prefix; [exact Hx|].
      by eapply (h_iter_prefix w Hw deployers config j k).
    + intros j lj d Hj (sj & Hsj & ->)%fmap_Some Hd%arrival_elem Hin; [|done].
      apply to_probe_elem in Hd as [Hd _]. apply Hd.
      eapply elem_of_prefix; [exact Hin|].
      by eapply (h_iter_prefix w Hw deployers config j k).
  - intros k l (s & Hs & ->)%fmap_Some. repeat split.
    + intros (j & sj & Hj & Hsj & d & Hd & Hx)%(c_iter_elems w Hw deployers config k s Hs).
      exists j, (doneStackList sj), d. cbn beta. rewrite Hsj.
      rewrite (c_iter_round w Hw _ _ _ _ Hsj) in Hx.
      repeat split; [done.. | by apply arrival_elem | done].
    + intros (j & lj & d & Hj & (sj & Hsj & ->)%fmap_Some & Hd%arrival_elem & Hx); [|done].
      apply (c_iter_elems w Hw deployers config k s Hs).
      exists j, sj. repeat split; [done..|]. exists d.
      by rewrite (c_iter_round w Hw _ _ _ _ Hsj).
    + intros j lj x Hj (sj & Hsj & ->)%fmap_Some Hx.
      eapply elem_of_prefix; [exact Hx|].
      by eapply (c_iter_prefix w Hw deployers config j k).
    + intros j lj d Hj (sj & Hsj & ->)%fmap_Some Hd%arrival_elem Hin; [|done].
      apply to_probe_elem in Hd as [Hd _]. apply Hd.
      eapply elem_of_prefix; [exact Hin|].
      by eapply (c_iter_prefix w Hw deployers config j k).
Qed.

(** After the first round of health checks of stacks "A" and "B" the list
    is ["B"]; "B" is still in the list after the second round, and the
    second round probes "A", whose name is not in the list, and nothing
    else. *)
Lemma done_set_grows_witness :
  "B" ∈ ["B"; "A"] ∧
  received (sample_world 5) 1 (to_probe [stack_a; stack_b] ["B"]) = [stack_a] ∧
  GetStackName stack_a ∉ ["B"].
Proof.
  destruct (done_set_grows_and_is_not_probed_again (sample_world 5)
              [stack_a; stack_b] sample_config (sample_world_ok 5)) as [Hh _].
  split; [|split].
  - destruct (Hh 2%nat ["B"; "A"]) as (_ & H2 & _); [vm_compute; reflexivity|].
    apply (H2 1%nat ["B"] "B"); [lia | vm_compute; reflexivity | by repeat constructor].
  - vm_compute. reflexivity.
  - destruct (Hh 1%nat ["B"]) as (_ & _ & H3); [vm_compute; reflexivity|].
    apply (H3 1%nat ["B"] stack_a); [lia | vm_compute; reflexivity |].
    vm_compute. by repeat constructor.
Defined.


(** ** How the health loop ends *)

Section HealthLoop.
Context (w : World) (deployers : list DeployManager.t) (config : Config.t).

Lemma h_body_timeout s :
  timed_out w config (h_round s) →
  h_body w deployers config s = inl (ErrTimeout (Config.Timeout config)).
Proof.
  unfold timed_out, h_body, CheckTimeout. intros H.
  apply Z.ltb_lt in H. by rewrite H.
Qed.

Lemma h_body_inl_timeout s t :
  h_body w deployers config s = inl (ErrTimeout t) → timed_out w config (h_round s).
Proof.
  unfold timed_out, h_body, CheckTimeout.
  destruct (_ <? _)%Z eqn:Ht; [intros _; by apply Z.ltb_lt|].
  destruct (h_collect _ _ _ _) as [e|l] eqn:Hc; [|done].
  apply h_collect_inl in Hc as ->. done.
Qed.

Lemma h_loop_timeout fuel s :
  h_loop w deployers config fuel s = Fails (ErrTimeout (Config.Timeout config)) ↔
  ∃ (n : nat) s', (n < fuel)%nat ∧ h_iter_from w deployers config s n = Some s' ∧
                  healthy s' = false ∧ timed_out w config (h_round s').
Proof.
  revert s. induction fuel as [|fuel IH]; intros s; simpl.
  - split; [done | intros (n & _ & Hn & _); lia].
  - destruct (healthy s) eqn:Hh.
    + split; [done|]. intros ([|n] & s' & _ & Hit & Hh' & _); simpl in Hit.
      * injection Hit as <-. congruence.
      * by rewrite Hh in Hit.
    + destruct (h_body w deployers config s) as [e|s1] eqn:Hb.
      * split.
        -- intros [= ->]. exists 0%nat, s. repeat split; [lia | done..|].
           by eapply h_body_inl_timeout.
        -- intros ([|n] & s' & _ & Hit & Hh' & Ht); simpl in Hit.
           ++ injection Hit as <-. rewrite (h_body_timeout _ Ht) in Hb. congruence.
           ++ by rewrite Hh, Hb in Hit.
      * rewrite IH. split.
        -- intros (n & s' & Hn & Hit & Hh' & Ht). exists (S n), s'.
           simpl. rewrite Hh, Hb. repeat split; [lia | done..].
        -- intros ([|n] & s' & Hn & Hit & Hh' & Ht); simpl in Hit.
           ++ injection Hit as <-. rewrite (h_body_timeout _ Ht) in Hb. congruence.
           ++ rewrite Hh, Hb in Hit. exists n, s'. repeat split; [lia | done..].
Qed.

Lemma h_iter_from_round s n s' :
  h_iter_from w deployers config s n = Some s' → h_round s' = (h_round s + n)%nat.
Proof.
  revert s. induction n as [|n IH]; intros s; simpl.
  - intros [= ->]. lia.
  - destruct (healthy s); [done|].
    destruct (h_body w deployers config s) as [|s1] eqn:Hb; [done|].
    intros ->%IH. revert Hb. unfold h_body, CheckTimeout.
    destruct (_ <? _)%Z; [done|].
    destruct (h_collect _ _ _ _); [done|]. intros [= <-]. simpl. lia.
Qed.

End HealthLoop.

(** C3.  When a round is reached in which one of the probes launched answers
    with the key "error" set, [doHealthchecking] returns the health-check
    error, whatever the other probes of the round answer and in whatever
    order the answers arrive. *)
Theorem health_sentinel_is_fatal
    (w : World) (deployers : list DeployManager.t) (config : Config.t)
    (k : nat) (s : hstate) (d : DeployManager.t) (fuel : nat) :
  world_ok w →
  h_iter w deployers config k = Some s →
  healthy s = false →
  (now w k - Config.StartTimestamp config ≤ Config.Timeout config)%Z →
  d ∈ to_probe deployers (healthyStackList s) →
  HealthChecking d config k !! "error" = Some true →
  (k < fuel)%nat →
  doHealthchecking w fuel deployers config = Fails ErrHealthcheck.
Proof.
  intros Hw Hit Hh Ht Hd Herr Hk. unfold doHealthchecking.
  replace fuel with (k + S (fuel - S k))%nat by lia.
  rewrite (h_loop_iter _ _ _ _ _ _ _ Hit). simpl. rewrite Hh.
  pose proof (h_iter_from_round _ _ _ _ _ _ Hit) as Hr. simpl in Hr.
  unfold h_body, CheckTimeout. rewrite Hr.
  destruct (_ <? _)%Z eqn:Hlt; [apply Z.ltb_lt in Hlt; lia|].
  rewrite (h_collect_sentinel w k _ _ (HealthChecking d config k)); [done| |done].
  apply list_elem_of_fmap. exists d. split; [done|]. by apply arrival_elem.
Qed.

(** Stack "C" answers with the error key in the second round, while stack
    "A" reports healthy in the same round. *)
Lemma health_sentinel_witness :
  doHealthchecking (sample_world 5) 2 [stack_a; stack_c] sample_config = Fails ErrHealthcheck.
Proof.
  apply (health_sentinel_is_fatal (sample_world 5) [stack_a; stack_c] sample_config 1
           {| h_round := 1; healthyStackList := []; healthy := false |} stack_c 2).
  - apply sample_world_ok.
  - vm_compute; reflexivity.
  - reflexivity.
  - simpl. lia.
  - apply to_probe_elem. split; [intros H; inversion H | by repeat constructor].
  - vm_compute; reflexivity.
  - lia.
Defined.


(** ** How the termination loop ends *)

Lemma c_loop_never_fails w deployers config fuel s e :
  c_loop w deployers config fuel s ≠ Fails e.
Proof.
  revert s. induction fuel as [|fuel IH]; intros s; simpl; [done|].
  destruct (done s); [done | apply IH].
Qed.

(** C10.  [cleanChecking] has no exit with an error: whenever it returns, it
    returns [nil]. *)
Theorem cleanChecking_returns_nil
    (w : World) (fuel : nat) (deployers : list DeployManager.t)
    (config : Config.t) (out : result unit) :
  cleanChecking w fuel deployers config = out →
  out ≠ OutOfFuel →
  out = Returns tt.
Proof.
  intros <- Hout. unfold cleanChecking in *.
  destruct (c_loop w deployers config fuel c_init) as [[]|e|] eqn:Hc; [done| |done].
  by apply c_loop_never_fails in Hc.
Qed.

(** Stacks "A" and "B" are both gone after three rounds. *)
Lemma cleanChecking_returns_nil_witness :
  cleanChecking (sample_world 5) 10 [stack_a; stack_b] sample_config = Returns tt.
Proof.
  apply (cleanChecking_returns_nil (sample_world 5) 10 [stack_a; stack_b] sample_config
           _ eq_refl).
  vm_compute. discriminate.
Defined.


(** ** Termination convergence under the deployer contract *)

Lemma NoDup_fmap_inj_on {A B} (f : A → B) (l : list A) x y :
  NoDup (f <$> l) → x ∈ l → y ∈ l → f x = f y → x = y.
Proof.
  induction l as [|a l IH]; simpl; [by intros _ H; inversion H|].
  intros [Ha Hl]%NoDup_cons Hx Hy Hxy.
  apply elem_of_cons in Hx as [->|Hx]; apply elem_of_cons in Hy as [->|Hy].
  - done.
  - destruct Ha. rewrite Hxy. by apply list_elem_of_fmap_2.
  - destruct Ha. rewrite <- Hxy. by apply list_elem_of_fmap_2.
  - by apply IH.
Qed.

Section Termination.
Context (w : World) (Hw : world_ok w).
Context (deployers : list DeployManager.t) (config : Config.t).
Context (Hnames : NoDup (GetStackName <$> deployers)).
Context (Hanswers : answers_own_name deployers config).

Lemma c_merge_singleton k count x (b : bool) l :
  c_merge (range_order w k count {[x := b]}) l = if b then (l ++ [x])%list else l.
Proof.
  pose proof (range_perm w Hw k count ({[x := b]} : gmap string bool)) as Hp.
  rewrite map_to_list_singleton in Hp. apply Permutation_singleton_r in Hp.
  rewrite Hp. unfold c_merge. simpl. by destruct b.
Qed.

(** The list after a round: the names of the probes that answered true are
    appended, in their order of arrival. *)
Lemma c_collect_contract k (probes : list DeployManager.t) l :
  (∀ d, d ∈ probes → d ∈ deployers) →
  c_collect w k ((λ d, TerminateChecking d config k) <$> probes) l =
  (l ++ (GetStackName <$> filter (λ d, terminated_at config d k) probes))%list.
Proof.
  revert l. induction probes as [|d probes IH]; intros l Hsub; simpl.
  - by rewrite app_nil_r.
  - destruct (Hanswers d k) as [b Hb]; [apply Hsub; left|].
    rewrite Hb, c_merge_singleton, IH by (intros; apply Hsub; by right).
    rewrite filter_cons.
    assert (Ht : terminated_at config d k ↔ b = true).
    { unfold terminated_at. rewrite Hb, lookup_singleton_eq. naive_solver. }
    destruct b.
    + rewrite decide_True by (by apply Ht). simpl. by rewrite <- app_assoc.
    + rewrite decide_False; [done|]. by intros ?%Ht.
Qed.

Lemma c_inv_init : c_inv deployers config c_init.
Proof.
  repeat split; simpl.
  - constructor.
  - intros x H. inversion H.
  - intros d j _ Hj. lia.
  - lia.
Qed.

Lemma c_inv_body s : c_inv deployers config s → c_inv deployers config (c_body w deployers config s).
Proof.
  intros (Hnd & Hfrom & Hto & _).
  set (k := c_round s).
  set (probes := received w k (to_probe deployers (doneStackList s))).
  assert (Hprobes : ∀ d, d ∈ probes ↔ (GetStackName d ∉ doneStackList s) ∧ d ∈ deployers).
  { intros d. unfold probes. by rewrite arrival_elem, to_probe_elem. }
  assert (Hl : doneStackList (c_body w deployers config s) =
               (doneStackList s ++
                (GetStackName <$> filter (λ d, terminated_at config d k) probes))%list).
  { unfold c_body. simpl. apply c_collect_contract. intros d Hd. by apply Hprobes. }
  split; [|split; [|split]].
  - rewrite Hl. apply NoDup_app. repeat split; [done| |].
    + intros x Hx (d & -> & Hd)%list_elem_of_fmap.
      apply list_elem_of_filter in Hd as [_ Hd]. apply Hprobes in Hd as [Hd _]. done.
    + eapply sublist_NoDup; [|apply fmap_sublist, sublist_filter].
      unfold probes. rewrite (received_perm w Hw).
      eapply sublist_NoDup; [exact Hnames|]. apply fmap_sublist, sublist_filter.
  - intros x. rewrite Hl, elem_of_app. intros [Hx|(d & -> & Hd)%list_elem_of_fmap].
    + destruct (Hfrom x Hx) as (d & j & Hd & Hj & -> & Ht).
      exists d, j. repeat split; [done | simpl; lia | done].
    + apply list_elem_of_filter in Hd as [Ht Hd]. apply Hprobes in Hd as [_ Hd].
      exists d, k. repeat split; [done | simpl; lia | done].
  - intros d j Hd Hj Ht. rewrite Hl, elem_of_app. simpl in Hj.
    destruct (decide (j = k)) as [->|Hne].
    + destruct (decide (GetStackName d ∈ doneStackList s)) as [Hin|Hnin]; [by left|].
      right. apply list_elem_of_fmap_2, list_elem_of_filter. split; [done|].
      by apply Hprobes.
    + left. apply (Hto d j); [done | fold k; lia | done].
  - intros _. reflexivity.
Qed.

(** Under the contract the list never holds a name twice and only holds
    names of deployers: it is full exactly when it is as long as the list of
    deployers. *)
Lemma c_inv_length s :
  c_inv deployers config s →
  length (doneStackList s) = length deployers ↔
  ∀ d, d ∈ deployers → GetStackName d ∈ doneStackList s.
Proof.
  intros (Hnd & Hfrom & _ & _).
  assert (Hsub : doneStackList s ⊆+ GetStackName <$> deployers).
  { apply NoDup_submseteq; [done|]. intros x (d & j & Hd & _ & -> & _)%Hfrom.
    by apply list_elem_of_fmap_2. }
  split.
  - intros Hlen d Hd.
    apply submseteq_length_Permutation in Hsub; [|rewrite length_fmap; lia].
    rewrite Hsub. by apply list_elem_of_fmap_2.
  - intros Hall. apply Nat.le_antisymm.
    + apply submseteq_length in Hsub. by rewrite length_fmap in Hsub.
    + rewrite <- (length_fmap GetStackName deployers).
      apply submseteq_length, NoDup_submseteq; [done|].
      intros x (d & -> & Hd)%list_elem_of_fmap. by apply Hall.
Qed.



End Termination.

Lemma with_clock_ok w clock : world_ok w → world_ok (with_clock w clock).
Proof. intros [Ha Hr]. split; [exact Ha | exact Hr]. Qed.






(** It fails in the other direction too: the probe of stack "A" answers for
    a stack "Z" as well, the list gets as long as the list of deployers in
    the first round and the loop returns nil, although stack "C" never
    reports its previous version gone. *)
Lemma cleanChecking_counts_entries :
  ¬ ends_iff_all_report (sample_world 5) [stack_az; stack_c] sample_config.
Proof.
  intros [_ Hloops].
  assert (Hnever : ∃ d, d ∈ [stack_az; stack_c] ∧
                        ∀ k : nat, ¬ terminated_at sample_config d k).
  { exists stack_c. split; [by repeat constructor|].
    intros k H. vm_compute in H. discriminate. }
  specialize (Hloops Hnever 2%nat (λ _, 0%Z)). vm_compute in Hloops. discriminate.
Qed.


(** ** Capacity validation *)

(** C6.  A new capacity with [Min ≤ Desired ≤ Max] that differs from the old
    one is accepted, and a new capacity equal to the old one is always
    refused. *)
Theorem CheckUpdateInformation_accepts_valid_change (old new : Capacity) :
  ((Min new ≤ Desired new)%Z → (Desired new ≤ Max new)%Z → new ≠ old →
   CheckUpdateInformation old new = None)
  ∧ (new = old → is_Some (CheckUpdateInformation old new)).
Proof.
  unfold CheckUpdateInformation. split.
  - intros H1 H2 Hne.
    destruct (Z.gtb_spec (Min new) (Max new)); [lia|].
    destruct (Z.gtb_spec (Min new) (Desired new)); [lia|].
    destruct (Z.gtb_spec (Desired new) (Max new)); [lia|].
    rewrite bool_decide_eq_false_2; [done | congruence].
  - intros ->.
    destruct (Min old >? Max old)%Z; [by eexists|].
    destruct (Min old >? Desired old)%Z; [by eexists|].
    destruct (Desired old >? Max old)%Z; [by eexists|].
    rewrite bool_decide_eq_true_2; [by eexists | done].
Qed.

(** From (1, 5, 2) to (1, 5, 4) is accepted; from (1, 5, 2) to itself is
    refused. *)
Lemma CheckUpdateInformation_accepts_witness :
  CheckUpdateInformation (mkCapacity 1 5 2) (mkCapacity 1 5 4) = None ∧
  is_Some (CheckUpdateInformation (mkCapacity 1 5 2) (mkCapacity 1 5 2)).
Proof.
  split.
  - apply (CheckUpdateInformation_accepts_valid_change (mkCapacity 1 5 2) (mkCapacity 1 5 4));
      [simpl; lia | simpl; lia | discriminate].
  - apply (CheckUpdateInformation_accepts_valid_change (mkCapacity 1 5 2) (mkCapacity 1 5 2)).
    reflexivity.
Defined.


(** C7.  When the new capacity breaks one of the three rules, the error
    returned is the one of the first rule broken, in the order min over max,
    min over desired, desired over max, whatever the old capacity is. *)
Theorem CheckUpdateInformation_first_broken_rule
    (old new : Capacity) (i : nat) (rule : Capacity → bool) (err : error) :
  capacity_rules !! i = Some (rule, err) →
  rule new = true →
  (∀ (j : nat) rule' err', (j < i)%nat →
     capacity_rules !! j = Some (rule', err') → rule' new = false) →
  CheckUpdateInformation old new = Some err.
Proof.
  intros Hi Hrule Hfirst. unfold CheckUpdateInformation.
  destruct i as [|[|[|i]]]; simpl in Hi; [| | |done]; injection Hi as <- <-.
  - by rewrite Hrule.
  - rewrite (Hfirst 0%nat _ _ ltac:(lia) eq_refl). by rewrite Hrule.
  - rewrite (Hfirst 0%nat _ _ ltac:(lia) eq_refl).
    rewrite (Hfirst 1%nat _ _ ltac:(lia) eq_refl). by rewrite Hrule.
Qed.

(** Min 3, max 5, desired 2 breaks the second rule only. *)
Lemma CheckUpdateInformation_first_broken_witness :
  CheckUpdateInformation (mkCapacity 1 5 2) (mkCapacity 3 5 2) = Some ErrMinOverDesired.
Proof.
  apply (CheckUpdateInformation_first_broken_rule (mkCapacity 1 5 2) (mkCapacity 3 5 2)
           1 (λ c, (Min c >? Desired c)%Z) ErrMinOverDesired).
  - reflexivity.
  - reflexivity.
  - intros [|j] rule' err' Hj Hr; [|lia]. simpl in Hr. injection Hr as <- _. reflexivity.
Defined.


(** ** The modes *)

Lemma verdict_bind {A B} (m : run A) (f : A → run B) :
  verdict (m ≫= f) =
  match verdict m with
  | Returns a => verdict (f a)
  | Fails e => Fails e
  | OutOfFuel => OutOfFuel
  end.
Proof.
  destruct m as [t [a|e|]]; unfold mbind, run_mbind, run_bind, verdict; simpl; [|done..].
  by destruct (f a).
Qed.

Lemma trace_bind {A B} (m : run A) (f : A → run B) :
  trace (m ≫= f) =
  (trace m ++ match verdict m with Returns a => trace (f a) | _ => [] end)%list.
Proof.
  destruct m as [t [a|e|]]; unfold mbind, run_mbind, run_bind, trace, verdict; simpl;
    [by destruct (f a) | by rewrite app_nil_r..].
Qed.

Lemma LocalCheck_declined w r message :
  GOOS w = "darwin" →
  Config.AutoApply (Builder.Config (Builder r)) = false →
  AskContinue w message = false →
  LocalCheck w r message = ([EvPrompt message], Fails ErrDeclined).
Proof. unfold LocalCheck. by intros -> -> ->. Qed.

(** C9.  On a Mac without auto-apply, with an operator who declines: deploy
    and delete return the decline error, update returns an error, which is
    the decline error whenever the prompt was reached; in all three no
    deployer has been constructed, no lifecycle operation called and no
    capacity updated. *)
Theorem declined_prompt_stops_before_any_change
    (w : World) (sv : Services) (fuel : nat) (r : Runner) :
  GOOS w = "darwin" →
  Config.AutoApply (Builder.Config (Builder r)) = false →
  (∀ message, AskContinue w message = false) →
  (verdict (Deploy w sv fuel r) = Fails ErrDeclined ∧
   Forall (λ ev, mutating ev = false) (trace (Deploy w sv fuel r)))
  ∧
  (verdict (Delete w sv fuel r) = Fails ErrDeclined ∧
   Forall (λ ev, mutating ev = false) (trace (Delete w sv fuel r)))
  ∧
  ((∃ e, verdict (Update w sv fuel r) = Fails e) ∧
   (∀ message, EvPrompt message ∈ trace (Update w sv fuel r) →
               verdict (Update w sv fuel r) = Fails ErrDeclined) ∧
   Forall (λ ev, mutating ev = false) (trace (Update w sv fuel r))).
Proof.
  intros HG HA Hno. split; [|split].
  - unfold Deploy. rewrite (LocalCheck_declined w r _ HG HA (Hno _)).
    split; [done | by repeat constructor].
  - unfold Delete. rewrite (LocalCheck_declined w r _ HG HA (Hno _)).
    split; [done | by repeat constructor].
  - unfold Update.
    destruct (SelectStack sv _) as [e|asg]; [|cbn].
    { split; [by exists e | split; [intros m H; inversion H | constructor]]. }
    destruct (GetStackInformation sv asg) as [e|group]; [|cbn].
    { split; [by exists e | split; [intros m H; inversion H | constructor]]. }
    destruct (CheckUpdateInformation _ _) as [e|]; [|cbn].
    { split; [by exists e | split; [intros m H; inversion H | constructor]]. }
    rewrite (LocalCheck_declined w r _ HG HA (Hno _)). cbn.
    split; [by exists ErrDeclined | split; [done | by repeat constructor]].
Qed.

(** The three modes on a Mac with an operator who declines. *)
Lemma declined_prompt_witness :
  verdict (Deploy (sample_world 5) sample_services 10 sample_runner) = Fails ErrDeclined ∧
  verdict (Delete (sample_world 5) sample_services 10 sample_runner) = Fails ErrDeclined ∧
  verdict (Update (sample_world 5) sample_services 10 sample_runner) = Fails ErrDeclined.
Proof.
  destruct (declined_prompt_stops_before_any_change (sample_world 5) sample_services 10
              sample_runner) as ([Hd _] & [Hx _] & (_ & Hu & _));
    [reflexivity | reflexivity | reflexivity |].
  split; [exact Hd|]. split; [exact Hx|].
  apply (Hu "Do you really want to update? "). vm_compute. by repeat constructor.
Defined.


Ltac run_simpl_in H :=
  repeat (rewrite ?trace_bind, ?verdict_bind in H;
          cbn [trace verdict emit check check_val poll fst snd mret run_mret
                 run_ret app] in H).

Ltac run_simpl :=
  repeat (rewrite ?trace_bind, ?verdict_bind;
          cbn [trace verdict emit check check_val poll fst snd mret run_mret
                 run_ret app]).

Lemma LocalCheck_trace w r message ev :
  ev ∈ trace (LocalCheck w r message) → ev = EvPrompt message.
Proof.
  unfold LocalCheck. destruct (_ && _); [|intros H; inversion H].
  run_simpl. destruct (negb _); run_simpl; rewrite ?app_nil_r;
    by intros ->%list_elem_of_singleton.
Qed.

Lemma getDeployer_trace sv stack templates region :
  trace (getDeployer sv stack templates region) = [EvGetDeployer (Stack.Stack stack)].
Proof. reflexivity. Qed.

Lemma getDeployer_verdict sv stack templates region :
  verdict (getDeployer sv stack templates region) =
  Returns (NewBlueGrean sv (Stack.ReplacementType stack)
             (if Stack.APITestEnabled stack
              then List.find (λ at_, String.eqb (Name at_) (Stack.APITestTemplate stack))
                     templates
              else None) stack region).
Proof. reflexivity. Qed.




(** ** Failures of the lifecycle operations *)

Lemma calls_app t1 t2 : calls (t1 ++ t2) = (calls t1 ++ calls t2)%list.
Proof. apply omap_app. Qed.

Lemma same_run_bind {A1 A2 B1 B2} (R : A1 → A2 → Prop) (S : B1 → B2 → Prop)
    (m1 : run A1) (m2 : run A2) (f1 : A1 → run B1) (f2 : A2 → run B2) :
  same_run R m1 m2 →
  (∀ a b, R a b → same_run S (f1 a) (f2 b)) →
  same_run S (m1 ≫= f1) (m2 ≫= f2).
Proof.
  intros [Hc Hv] Hf. unfold same_run. rewrite !trace_bind, !verdict_bind, !calls_app, Hc.
  destruct (verdict m1) as [a|e1|], (verdict m2) as [b|e2|]; try done.
  destruct (Hf a b Hv) as [Hc' Hv']. by rewrite Hc'.
Qed.

Lemma same_run_refl {A} (m : run A) : same_run eq m m.
Proof. split; [done|]. by destruct (verdict m). Qed.

Section Reassign.
Context (f : DeployManager.t → DeployManager.t).
Context (Hname : ∀ d, GetStackName (f d) = GetStackName d).
Context (Hhealth : ∀ d, HealthChecking (f d) = HealthChecking d).
Context (Hterm : ∀ d, TerminateChecking (f d) = TerminateChecking d).

Lemma to_probe_fmap deployers l :
  to_probe (f <$> deployers) l = f <$> to_probe deployers l.
Proof.
  unfold to_probe. induction deployers as [|d ds IH]; [done|].
  rewrite fmap_cons, !filter_cons, Hname, IH. by destruct (decide _).
Qed.

Lemma received_fmap w k (l : list DeployManager.t) :
  received w k (f <$> l) = f <$> received w k l.
Proof. unfold received. by rewrite length_fmap, deliver_fmap. Qed.

Lemma h_body_fmap w deployers config s :
  h_body w (f <$> deployers) config s = h_body w deployers config s.
Proof.
  unfold h_body. rewrite to_probe_fmap, received_fmap, length_fmap, <- list_fmap_compose.
  destruct (CheckTimeout _ _ _) as [[] ?]; [done|].
  erewrite (list_fmap_ext _ (λ d, HealthChecking d config (h_round s))); [done|].
  intros i d _. simpl. by rewrite Hhealth.
Qed.

Lemma doHealthchecking_fmap w fuel deployers config :
  doHealthchecking w fuel (f <$> deployers) config = doHealthchecking w fuel deployers config.
Proof.
  unfold doHealthchecking. generalize h_init.
  induction fuel as [|fuel IH]; intros s; simpl; [done|].
  rewrite h_body_fmap. destruct (healthy s); [done|].
  destruct (h_body w deployers config s); [done | apply IH].
Qed.

Lemma c_body_fmap w deployers config s :
  c_body w (f <$> deployers) config s = c_body w deployers config s.
Proof.
  unfold c_body. rewrite to_probe_fmap, received_fmap, length_fmap, <- list_fmap_compose.
  erewrite (list_fmap_ext _ (λ d, TerminateChecking d config (c_round s))); [done|].
  intros i d _. simpl. by rewrite Hterm.
Qed.

Lemma cleanChecking_fmap w fuel deployers config :
  cleanChecking w fuel (f <$> deployers) config = cleanChecking w fuel deployers config.
Proof.
  unfold cleanChecking. generalize c_init.
  induction fuel as [|fuel IH]; intros s; simpl; [done|].
  rewrite c_body_fmap. destruct (done s); [done | apply IH].
Qed.

Lemma attempt_same op d config : same_run eq (attempt op (f d) config) (attempt op d config).
Proof.
  unfold attempt, same_run. run_simpl. rewrite Hname.
  split; [|by destruct (invoke op (f d) config), (invoke op d config)].
  by destruct (invoke op (f d) config), (invoke op d config).
Qed.

Lemma forEach_same deployers (body1 body2 : DeployManager.t → run unit) :
  (∀ d, same_run eq (body1 (f d)) (body2 d)) →
  same_run eq (forEach (f <$> deployers) body1) (forEach deployers body2).
Proof.
  intros Hbody. induction deployers as [|d ds IH]; cbn [forEach fmap list_fmap]; [apply same_run_refl|].
  eapply same_run_bind; [apply Hbody | intros _ _ _; apply IH].
Qed.

Lemma prepareDeployers_cons sv r stack stacks :
  prepareDeployers sv r (stack :: stacks) =
  let config := Builder.Config (Builder r) in
  if negb (String.eqb (Config.Stack config) "")
     && negb (String.eqb (Stack.Stack stack) (Config.Stack config))
  then prepareDeployers sv r stacks
  else
    d ← getDeployer sv stack (Builder.APITestTemplates (Builder r))
          (Config.Region config) ;
    ds ← prepareDeployers sv r stacks ;
    mret (d :: ds).
Proof. reflexivity. Qed.

Lemma prepareDeployers_same sv r stacks :
  same_run (λ ds1 ds2, ds1 = f <$> ds2)
    (prepareDeployers (with_deployers f sv) r stacks) (prepareDeployers sv r stacks).
Proof.
  induction stacks as [|stack stacks IH]; [done|].
  rewrite !prepareDeployers_cons. cbv zeta.
  destruct (_ && _); [exact IH|].
  eapply (same_run_bind (λ d1 d2, d1 = f d2)); [done|].
  intros d1 d2 ->. eapply same_run_bind; [exact IH|].
  intros ds1 ds2 ->. done.
Qed.

Lemma Deploy_same w sv fuel r :
  same_run eq (Deploy w (with_deployers f sv) fuel r) (Deploy w sv fuel r).
Proof.
  unfold Deploy.
  eapply same_run_bind; [apply same_run_refl | intros _ _ _].
  eapply same_run_bind; [apply same_run_refl | intros _ _ _].
  eapply same_run_bind; [apply same_run_refl | intros _ _ _].
  eapply same_run_bind; [apply same_run_refl | intros _ _ _].
  eapply same_run_bind; [apply prepareDeployers_same | intros ds1 ds ->].
  eapply same_run_bind; [apply forEach_same | intros _ _ _].
  { intros d. eapply same_run_bind; [apply attempt_same | intros _ _ _; apply attempt_same]. }
  rewrite doHealthchecking_fmap.
  eapply same_run_bind; [apply same_run_refl | intros _ _ _].
  eapply same_run_bind; [apply forEach_same | intros _ _ _].
  { intros d. eapply same_run_bind; [apply attempt_same | intros _ _ _].
    eapply same_run_bind; [apply attempt_same | intros _ _ _; apply attempt_same]. }
  rewrite cleanChecking_fmap.
  eapply same_run_bind; [apply same_run_refl | intros _ _ _].
  eapply same_run_bind; [apply forEach_same | intros _ _ _].
  { intros d. apply attempt_same. }
  eapply same_run_bind; [apply forEach_same | intros _ _ _].
  { intros d. apply attempt_same. }
  apply same_run_refl.
Qed.
End Reassign.

Lemma elem_of_calls t op stack : (op, stack) ∈ calls t ↔ EvCall op stack ∈ t.
Proof.
  unfold calls. rewrite list_elem_of_omap. split.
  - intros (ev & Hev & Heq). destruct ev; try done. by injection Heq as -> ->.
  - intros H. by exists (EvCall op stack).
Qed.

Lemma attempt_verdict op d config : verdict (attempt op d config) = Returns tt.
Proof. unfold attempt. run_simpl. by destruct (invoke op d config). Qed.

Lemma attempt_trace op d config :
  EvCall op (GetStackName d) ∈ trace (attempt op d config).
Proof. unfold attempt. run_simpl. left. Qed.

Lemma forEach_verdict deployers body :
  (∀ d, verdict (body d) = Returns tt) →
  verdict (forEach deployers body) = Returns tt.
Proof.
  intros Hbody. induction deployers as [|d ds IH]; [done|].
  cbn [forEach]. by rewrite verdict_bind, Hbody.
Qed.

Lemma forEach_trace deployers body d ev :
  (∀ d, verdict (body d) = Returns tt) →
  d ∈ deployers → ev ∈ trace (body d) → ev ∈ trace (forEach deployers body).
Proof.
  intros Hbody Hd Hev. induction deployers as [|d' ds IH]; [inversion Hd|].
  cbn [forEach]. rewrite trace_bind, Hbody, elem_of_app.
  apply elem_of_cons in Hd as [->|Hd]; [by left | right; by apply IH].
Qed.

Ltac attempts_return :=
  intros; repeat (rewrite verdict_bind, attempt_verdict); apply attempt_verdict.

Lemma Deploy_full w sv fuel r ds d op :
  verdict (Deploy w sv fuel r) = Returns tt →
  verdict (prepareDeployers sv r (Builder.Stacks (Builder r))) = Returns ds →
  d ∈ ds → op ≠ OpSkipDeployStep →
  (op, GetStackName d) ∈ calls (trace (Deploy w sv fuel r)).
Proof.
  intros Hv Hds Hd Hop. apply elem_of_calls. revert Hv. unfold Deploy.
  set (config := Builder.Config (Builder r)).
  run_simpl. rewrite Hds. run_simpl.
  repeat match goal with
         | |- context [verdict (forEach ds ?b)] =>
             rewrite (forEach_verdict ds b) by attempts_return
         end.
  destruct (verdict (LocalCheck w r _)) as [[]| |]; [|done..].
  destruct (PrintSummary sv _ _); [done|].
  match goal with |- context [verdict ?m] =>
    match m with
    | (if ValidClient sv then _ else _) =>
        assert (Hs : verdict m = Returns tt);
        [destruct (ValidClient sv);
         [by destruct (SendSummaryMessage sv _ _) | by destruct (negb _)] |
         rewrite Hs]
    end
  end.
  match goal with |- context [verdict ?m] =>
    match m with
    | (if Builder.MetricConfigEnabled _ then _ else _) =>
        destruct (verdict m) as [[]| |]; [|done..]
    end
  end.
  destruct (doHealthchecking w fuel ds config) as [[]| |]; [|done..].
  destruct (cleanChecking w fuel ds config) as [[]| |]; [|done..].
  intros _. rewrite !elem_of_app.
  assert (Hin : ∀ body, (∀ d', verdict (body d') = Returns tt) →
            EvCall op (GetStackName d) ∈ trace (body d) →
            EvCall op (GetStackName d) ∈ trace (forEach ds body)).
  { intros body Hb Hev. by apply (forEach_trace ds body d). }
  destruct op; [| |done| | | | |].
  - do 4 right. left. apply Hin; [attempts_return|].
    rewrite trace_bind, attempt_verdict, elem_of_app. left. apply attempt_trace.
  - do 4 right. left. apply Hin; [attempts_return|].
    rewrite trace_bind, attempt_verdict, elem_of_app. right. apply attempt_trace.
  - do 5 right. left. apply Hin; [attempts_return|].
    rewrite trace_bind, attempt_verdict, elem_of_app. left. apply attempt_trace.
  - do 5 right. left. apply Hin; [attempts_return|].
    rewrite !trace_bind, !attempt_verdict, !elem_of_app. right. left. apply attempt_trace.
  - do 5 right. left. apply Hin; [attempts_return|].
    rewrite !trace_bind, !attempt_verdict, !elem_of_app. right. right. apply attempt_trace.
  - do 6 right. left. apply Hin; [attempts_return | apply attempt_trace].
  - do 7 right. left. apply Hin; [attempts_return | apply attempt_trace].
Qed.

Lemma same_run_eq {A} (m1 m2 : run A) :
  same_run eq m1 m2 → verdict m1 = verdict m2 ∧ calls (trace m1) = calls (trace m2).
Proof.
  intros [Hc Hv]. split; [|done].
  destruct (verdict m1), (verdict m2); by subst.
Qed.

(** C5.  Put any outcomes in place of the outcomes of the lifecycle
    operations of the deployers: the deploy flow returns the same verdict and
    makes the same calls of lifecycle operations.  And when the flow returns
    [nil], each of the seven operations has been called for every deployer,
    whichever of them failed. *)
Theorem per_stack_errors_are_not_fatal
    (w : World) (sv : Services) (fuel : nat) (r : Runner)
    (o : string → operation → Config.t → option error) :
  let original := Deploy w sv fuel r in
  let changed := Deploy w (with_deployers (reassign o) sv) fuel r in
  verdict changed = verdict original ∧
  calls (trace changed) = calls (trace original) ∧
  (verdict original = Returns tt →
   ∀ ds d op,
     verdict (prepareDeployers sv r (Builder.Stacks (Builder r))) = Returns ds →
     d ∈ ds → op ≠ OpSkipDeployStep →
     (op, GetStackName d) ∈ calls (trace original)).
Proof.
  intros original changed.
  destruct (same_run_eq changed original) as [Hv Hc].
  { by apply Deploy_same. }
  split; [done|]. split; [done|].
  intros Hret ds d op Hds Hd Hop. by apply (Deploy_full w sv fuel r ds).
Qed.

(** Every lifecycle operation of stack "B" fails, and the API test of "B"
    is called all the same. *)
Lemma per_stack_errors_witness :
  (OpRunAPITest, "B") ∈
    calls (trace (Deploy (willing_world 5) sample_services 10 sample_runner)).
Proof.
  pose proof (per_stack_errors_are_not_fatal (willing_world 5) sample_services 10
                sample_runner (λ _ _ _, None)) as (_ & _ & Hall).
  apply (Hall ltac:(vm_compute; reflexivity) [stack_a; stack_b] stack_b OpRunAPITest).
  - vm_compute. reflexivity.
  - by repeat constructor.
  - discriminate.
Defined.


(** * Further properties *)

(** ** Further helpers *)

Lemma reversed_world_ok time : world_ok (reversed_world time).
Proof. split; [intros k count; cbn; symmetry; apply Permutation_rev | done]. Qed.

(** ** The pollers *)

Lemma h_loop_fails w deployers config fuel s e :
  h_loop w deployers config fuel s = Fails e →
  e = ErrTimeout (Config.Timeout config) ∨ e = ErrHealthcheck.
Proof.
  revert s. induction fuel as [|fuel IH]; intros s; simpl; [done|].
  destruct (healthy s); [done|].
  destruct (h_body w deployers config s) as [e'|s'] eqn:Hb; [|apply IH].
  intros [= <-]. revert Hb. unfold h_body, CheckTimeout.
  destruct (_ <? _)%Z; [intros [= <-]; by left|].
  destruct (h_collect _ _ _ _) as [e''|l] eqn:Hc; [|done].
  intros [= <-]. right. by eapply h_collect_inl.
Qed.

(** X1.  Health convergence has two errors only: when it fails, the error
    is the timeout error, which carries the timeout of the configuration, or
    the health-check error of the key "error". *)
Theorem doHealthchecking_fails_with_timeout_or_probe_error
    (w : World) (fuel : nat) (deployers : list DeployManager.t)
    (config : Config.t) (e : error) :
  doHealthchecking w fuel deployers config = Fails e →
  e = ErrTimeout (Config.Timeout config) ∨ e = ErrHealthcheck.
Proof. apply h_loop_fails. Qed.

Section HealthContract.
Context (w : World) (Hw : world_ok w).
Context (deployers : list DeployManager.t) (config : Config.t).
Context (Hnames : NoDup (GetStackName <$> deployers)).
Context (Hcontract : health_contract deployers config).

Lemma h_merge_singleton k count x (b : bool) l :
  x ≠ "error" →
  h_merge (range_order w k count {[x := b]}) l = if b then (l ++ [x])%list else l.
Proof.
  intros Hx.
  pose proof (range_perm w Hw k count ({[x := b]} : gmap string bool)) as Hp.
  rewrite map_to_list_singleton in Hp. apply Permutation_singleton_r in Hp.
  rewrite Hp. unfold h_merge. simpl.
  destruct (String.eqb_spec x "error"); [done|]. by destruct b.
Qed.

(** With the clock at 100 and a timeout of 10 the loop fails, with the
    timeout error. *)
Lemma doHealthchecking_fails_witness :
  doHealthchecking (sample_world 100) 3 [stack_a; stack_b] sample_config
    = Fails (ErrTimeout 10) ∧
  (ErrTimeout 10 = ErrTimeout (Config.Timeout sample_config) ∨
   ErrTimeout 10 = ErrHealthcheck).
Proof.
  split; [vm_compute; reflexivity|].
  apply (doHealthchecking_fails_with_timeout_or_probe_error (sample_world 100) 3
           [stack_a; stack_b] sample_config).
  vm_compute. reflexivity.
Defined.

Lemma h_collect_contract k (probes : list DeployManager.t) l l' :
  (∀ d, d ∈ probes → d ∈ deployers) →
  h_collect w k ((λ d, HealthChecking d config k) <$> probes) l = inr l' →
  l' = (l ++ (GetStackName <$> filter (λ d, healthy_at config d k) probes))%list.
Proof.
  revert l. induction probes as [|d probes IH]; intros l Hsub; simpl.
  - intros [= <-]. by rewrite app_nil_r.
  - destruct (Hcontract d k) as [Hne [[b Hb]|Herr]]; [apply Hsub; left| |].
    + rewrite Hb. rewrite lookup_singleton_ne by done. simpl.
      rewrite h_merge_singleton by done.
      intros Hc. apply IH in Hc; [|intros; apply Hsub; by right].
      rewrite Hc, filter_cons.
      assert (Ht : healthy_at config d k ↔ b = true).
      { unfold healthy_at. rewrite Hb, lookup_singleton_eq. naive_solver. }
      destruct b.
      * rewrite decide_True by (by apply Ht). simpl. by rewrite <- app_assoc.
      * rewrite decide_False; [done|]. by intros ?%Ht.
    + rewrite Herr, lookup_singleton_eq. simpl. done.
Qed.

Lemma h_inv_init : h_inv deployers config h_init.
Proof.
  split; [constructor|]. split; [intros x H; inversion H|].
  split; [intros d j _ Hj; simpl in Hj; lia | simpl; lia].
Qed.

Lemma h_inv_body s s' :
  h_inv deployers config s → h_body w deployers config s = inr s' →
  h_inv deployers config s'.
Proof.
  intros (Hnd & Hfrom & Hto & _). unfold h_body, CheckTimeout.
  destruct (_ <? _)%Z; [done|].
  set (k := h_round s).
  set (probes := received w k (to_probe deployers (healthyStackList s))).
  assert (Hprobes : ∀ d, d ∈ probes ↔ (GetStackName d ∉ healthyStackList s) ∧ d ∈ deployers).
  { intros d. unfold probes. by rewrite arrival_elem, to_probe_elem. }
  destruct (h_collect _ _ _ _) as [e|l] eqn:Hc; [done|].
  intros [= <-]. apply h_collect_contract in Hc; [|intros d Hd; by apply Hprobes].
  split; [|split; [|split]]; simpl.
  - rewrite Hc. apply NoDup_app. repeat split; [done| |].
    + intros x Hx (d & -> & Hd)%list_elem_of_fmap.
      apply list_elem_of_filter in Hd as [_ Hd]. apply Hprobes in Hd as [Hd _]. done.
    + eapply sublist_NoDup; [|apply fmap_sublist, sublist_filter].
      unfold probes. rewrite (received_perm w Hw).
      eapply sublist_NoDup; [exact Hnames|]. apply fmap_sublist, sublist_filter.
  - intros x. rewrite Hc, elem_of_app. intros [Hx|(d & -> & Hd)%list_elem_of_fmap].
    + destruct (Hfrom x Hx) as (d & j & Hd & Hj & -> & Ht).
      exists d, j. repeat split; [done | lia | done].
    + apply list_elem_of_filter in Hd as [Ht Hd]. apply Hprobes in Hd as [_ Hd].
      exists d, k. repeat split; [done | lia | done].
  - intros d j Hd Hj Ht. rewrite Hc, elem_of_app.
    destruct (decide (j = k)) as [->|Hne].
    + destruct (decide (GetStackName d ∈ healthyStackList s)) as [Hin|Hnin]; [by left|].
      right. apply list_elem_of_fmap_2, list_elem_of_filter. split; [done|].
      by apply Hprobes.
    + left. apply (Hto d j); [done | fold k; lia | done].
  - intros _. reflexivity.
Qed.

Lemma h_inv_length s :
  h_inv deployers config s →
  length (healthyStackList s) = length deployers ↔
  ∀ d, d ∈ deployers → GetStackName d ∈ healthyStackList s.
Proof.
  intros (Hnd & Hfrom & _ & _).
  assert (Hsub : healthyStackList s ⊆+ GetStackName <$> deployers).
  { apply NoDup_submseteq; [done|]. intros x (d & j & Hd & _ & -> & _)%Hfrom.
    by apply list_elem_of_fmap_2. }
  split.
  - intros Hlen d Hd.
    apply submseteq_length_Permutation in Hsub; [|rewrite length_fmap; lia].
    rewrite Hsub. by apply list_elem_of_fmap_2.
  - intros Hall. apply Nat.le_antisymm.
    + apply submseteq_length in Hsub. by rewrite length_fmap in Hsub.
    + rewrite <- (length_fmap GetStackName deployers).
      apply submseteq_length, NoDup_submseteq; [done|].
      intros x (d & -> & Hd)%list_elem_of_fmap. by apply Hall.
Qed.

Lemma h_loop_sound fuel s :
  h_inv deployers config s → (healthy s = true → (0 < h_round s)%nat) →
  h_loop w deployers config fuel s = Returns tt →
  ∀ d, d ∈ deployers →
    ∃ k : nat, (k < h_round s + fuel)%nat ∧ healthy_at config d k.
Proof.
  revert s. induction fuel as [|fuel IH]; intros s Hinv Hpos; simpl; [done|].
  destruct (healthy s) eqn:Hh.
  - intros _ d Hd. pose proof Hinv as (_ & Hfrom & _ & Hflag).
    rewrite Hflag in Hh by auto. apply Nat.eqb_eq in Hh.
    pose proof (proj1 (h_inv_length s Hinv) Hh d Hd) as Hin.
    destruct (Hfrom _ Hin) as (d' & j & Hd' & Hj & Heq & Ht).
    apply (NoDup_fmap_inj_on GetStackName deployers) in Heq; [|done..].
    subst d'. exists j. split; [lia | done].
  - destruct (h_body w deployers config s) as [e|s'] eqn:Hb; [done|].
    assert (Hr : h_round s' = S (h_round s)).
    { revert Hb. unfold h_body, CheckTimeout. destruct (_ <? _)%Z; [done|].
      destruct (h_collect _ _ _ _); [done|]. by intros [= <-]. }
    intros Hc d Hd.
    destruct (IH s') with (d := d) as (k & Hk & Ht);
      [by eapply h_inv_body | lia | done | done |].
    exists k. split; [lia | done].
Qed.



End HealthContract.

(** *** The deadline of the health loop *)

Lemma h_body_flag w deployers config s s' :
  h_body w deployers config s = inr s' →
  healthy s' = Nat.eqb (length (healthyStackList s')) (length deployers).
Proof.
  unfold h_body, CheckTimeout. destruct (_ <? _)%Z; [done|].
  destruct (h_collect _ _ _ _); [done|]. by intros [= <-].
Qed.

Lemma h_iter_flag w deployers config k s :
  h_iter w deployers config k = Some s →
  healthy s = false ↔
  k = 0%nat ∨ length (healthyStackList s) ≠ length deployers.
Proof.
  destruct k as [|k].
  - intros [= <-]. split; [by left | done].
  - intros (s0 & _ & _ & Hb)%h_iter_succ.
    apply h_body_flag in Hb as ->.
    rewrite Nat.eqb_neq. split; [by right | by intros [?|?]].
Qed.

Lemma h_inv_iter w (Hw : world_ok w) deployers config k s :
  NoDup (GetStackName <$> deployers) → health_contract deployers config →
  h_iter w deployers config k = Some s → h_inv deployers config s.
Proof.
  intros Hnames Hcontract. revert s. induction k as [|k IH]; intros s.
  - intros [= <-]. apply h_inv_init.
  - intros (s0 & Hs0 & _ & Hb)%h_iter_succ.
    eapply (h_inv_body w Hw deployers config Hnames Hcontract); [by apply IH | done].
Qed.

(** C2, as the code has it.  [doHealthchecking] returns the timeout error
    exactly when, at the top of some turn of the loop, the time elapsed since
    [config.StartTimestamp] exceeds [config.Timeout] and either no round has
    run yet or the list of healthy stacks is not as long as the list of
    deployers.  With at least one deployer, distinct stack names and probes
    that keep the contract, this is the sentence of the specification with
    [config.StartTimestamp] for the reference time: the time elapsed since
    then exceeds the timeout and the set of healthy stacks is not yet the
    set of all stacks.  The reference time is a field of the configuration
    handed in, the same at every turn. *)
Theorem health_timeout_iff
    (w : World) (deployers : list DeployManager.t) (config : Config.t) :
  (∀ fuel : nat,
     doHealthchecking w fuel deployers config = Fails (ErrTimeout (Config.Timeout config)) ↔
     ∃ (k : nat) s, (k < fuel)%nat ∧ h_iter w deployers config k = Some s ∧
                    (Config.Timeout config < now w k - Config.StartTimestamp config)%Z ∧
                    (k = 0%nat ∨ length (healthyStackList s) ≠ length deployers))
  ∧
  (world_ok w → NoDup (GetStackName <$> deployers) →
   health_contract deployers config → deployers ≠ [] →
   timeout_iff_late_and_incomplete (Config.StartTimestamp config) w deployers config).
Proof.
  assert (Hcode : ∀ fuel : nat,
     doHealthchecking w fuel deployers config = Fails (ErrTimeout (Config.Timeout config)) ↔
     ∃ (k : nat) s, (k < fuel)%nat ∧ h_iter w deployers config k = Some s ∧
                    (Config.Timeout config < now w k - Config.StartTimestamp config)%Z ∧
                    (k = 0%nat ∨ length (healthyStackList s) ≠ length deployers)).
  { intros fuel. unfold doHealthchecking. rewrite h_loop_timeout. unfold timed_out.
    split.
    - intros (k & s & Hk & Hit & Hh & Ht). exists k, s.
      pose proof (h_iter_from_round _ _ _ _ _ _ Hit) as Hr. simpl in Hr.
      rewrite Hr in Ht. repeat split; [done..|]. by apply (h_iter_flag w deployers config).
    - intros (k & s & Hk & Hit & Ht & Hl). exists k, s.
      pose proof (h_iter_from_round _ _ _ _ _ _ Hit) as Hr. simpl in Hr.
      rewrite Hr. repeat split; [done..| |done].
      by apply (h_iter_flag w deployers config k). }
  split; [exact Hcode|].
  intros Hw Hnames Hcontract Hne fuel. rewrite Hcode.
  assert (Hset : ∀ (k : nat) s, h_iter w deployers config k = Some s →
            (k = 0%nat ∨ length (healthyStackList s) ≠ length deployers) ↔
            ¬ (∀ d, d ∈ deployers → GetStackName d ∈ healthyStackList s)).
  { intros k s Hit.
    pose proof (h_inv_iter w Hw deployers config k s Hnames Hcontract Hit) as Hinv.
    pose proof (h_inv_length deployers config Hnames s Hinv) as Hlen.
    rewrite <- Hlen. split; [|by right].
    intros [-> | Hl]; [|done].
    injection Hit as <-. simpl. by destruct deployers. }
  split; intros (k & s & Hk & Hit & Ht & Hl); exists k, s;
    (repeat split; [done..|]); by apply (Hset k s Hit).
Qed.

(** With the clock at 5 for the first deadline check and at 100 from the
    second on, stack "A" is not yet healthy when the deadline is found
    passed: the timeout error. *)
Lemma health_timeout_witness :
  doHealthchecking (with_clock (sample_world 5) late_clock) 2 [stack_a; stack_b]
    sample_config = Fails (ErrTimeout 10).
Proof.
  apply (health_timeout_iff (with_clock (sample_world 5) late_clock)
           [stack_a; stack_b] sample_config).
  - apply with_clock_ok, sample_world_ok.
  - apply (bool_decide_unpack _). vm_compute. exact I.
  - intros d k [->|[->|H]%elem_of_cons]%elem_of_cons; [| |inversion H].
    + split; [done|]. left. by eexists.
    + split; [done|]. left. by eexists.
  - done.
  - exists 1%nat, {| h_round := 1; healthyStackList := ["B"]; healthy := false |}.
    split; [lia|]. split; [vm_compute; reflexivity|]. split; [cbn; lia|].
    intros H. specialize (H stack_a ltac:(left)).
    apply list_elem_of_singleton in H. discriminate H.
Defined.

(** C2, as the specification has it, fails: with a start timestamp of 0, a
    timeout of 10 and a clock that reads 100 when the loop is entered, the
    timeout error is returned at the first deadline check, when no time at
    all has passed since the entry of the loop. *)
Lemma timeout_counts_from_start_timestamp :
  ¬ timeout_counts_from_loop_entry (sample_world 100) [stack_a] sample_config.
Proof.
  intros H. destruct (H 1%nat) as [H1 _].
  destruct H1 as (k & s & _ & _ & Hlt & _); [vm_compute; reflexivity|].
  simpl in Hlt. lia.
Qed.

(** With the time counted from the start timestamp the sentence still
    fails, on the first deadline check of a run without deployers: the
    timeout error is returned although no stack is missing. *)
Lemma timeout_precedes_the_first_round :
  ¬ timeout_iff_late_and_incomplete (Config.StartTimestamp sample_config)
      (sample_world 100) [] sample_config.
Proof.
  intros H. destruct (H 1%nat) as [H1 _].
  destruct H1 as (k & s & _ & _ & _ & Hmissing); [vm_compute; reflexivity|].
  apply Hmissing. intros d Hd. inversion Hd.
Qed.




(** X3.  Under the deployer contract, health convergence returns nil only
    when every deployer has reported its stack healthy in one of the rounds
    run. *)
Theorem doHealthchecking_success_means_all_healthy
    (w : World) (fuel : nat) (deployers : list DeployManager.t) (config : Config.t) :
  world_ok w →
  NoDup (GetStackName <$> deployers) →
  health_contract deployers config →
  doHealthchecking w fuel deployers config = Returns tt →
  ∀ d, d ∈ deployers → ∃ k : nat, (k < fuel)%nat ∧ healthy_at config d k.
Proof.
  intros Hw Hnames Hcontract Hret d Hd.
  by apply (h_loop_sound w Hw deployers config Hnames Hcontract fuel h_init);
    [apply h_inv_init | ..].
Qed.

(** The loop returns nil for stacks "A" and "B" with fuel 3, so "A" was
    healthy in one of the first three rounds. *)
Lemma doHealthchecking_success_witness :
  doHealthchecking (sample_world 5) 3 [stack_a; stack_b] sample_config = Returns tt ∧
  ∃ k : nat, (k < 3)%nat ∧ healthy_at sample_config stack_a k.
Proof.
  split; [vm_compute; reflexivity|].
  apply (doHealthchecking_success_means_all_healthy (sample_world 5) 3
           [stack_a; stack_b] sample_config).
  - apply sample_world_ok.
  - apply (bool_decide_unpack _). vm_compute. exact I.
  - intros d k [->|[->|H]%elem_of_cons]%elem_of_cons; [| |inversion H].
    + split; [done|]. left. by eexists.
    + split; [done|]. left. by eexists.
  - vm_compute. reflexivity.
  - left.
Defined.

Section CleanSound.
Context (w : World) (Hw : world_ok w).
Context (deployers : list DeployManager.t) (config : Config.t).
Context (Hnames : NoDup (GetStackName <$> deployers)).
Context (Hanswers : answers_own_name deployers config).

Lemma c_loop_sound fuel s :
  c_inv deployers config s → (done s = true → (0 < c_round s)%nat) →
  c_loop w deployers config fuel s = Returns tt →
  ∀ d, d ∈ deployers →
    ∃ k : nat, (k < c_round s + fuel)%nat ∧ terminated_at config d k.
Proof.
  revert s. induction fuel as [|fuel IH]; intros s Hinv Hpos; simpl; [done|].
  destruct (done s) eqn:Hh.
  - intros _ d Hd. pose proof Hinv as (_ & Hfrom & _ & Hflag).
    rewrite Hflag in Hh by auto. apply Nat.eqb_eq in Hh.
    pose proof (proj1 (c_inv_length deployers config Hnames s Hinv) Hh d Hd) as Hin.
    destruct (Hfrom _ Hin) as (d' & j & Hd' & Hj & Heq & Ht).
    apply (NoDup_fmap_inj_on GetStackName deployers) in Heq; [|done..].
    subst d'. exists j. split; [lia | done].
  - intros Hc d Hd.
    destruct (IH (c_body w deployers config s)) with (d := d) as (k & Hk & Ht);
      [by apply c_inv_body | simpl; lia | done | done |].
    exists k. split; [simpl in Hk; lia | done].
Qed.
End CleanSound.

(** X4.  With distinct stack names and probes that answer [{name: bool}],
    termination convergence returns nil only when every deployer has reported
    its previous version gone in one of the rounds run. *)
Theorem cleanChecking_success_means_all_terminated
    (w : World) (fuel : nat) (deployers : list DeployManager.t) (config : Config.t) :
  world_ok w →
  NoDup (GetStackName <$> deployers) →
  answers_own_name deployers config →
  cleanChecking w fuel deployers config = Returns tt →
  ∀ d, d ∈ deployers → ∃ k : nat, (k < fuel)%nat ∧ terminated_at config d k.
Proof.
  intros Hw Hnames Hanswers Hret d Hd.
  by apply (c_loop_sound w Hw deployers config Hnames Hanswers fuel c_init);
    [apply c_inv_init | ..].
Qed.

(** The loop returns nil for stacks "A" and "B" with fuel 4, so the previous
    version of "B" was gone in one of the first four rounds. *)
Lemma cleanChecking_success_witness :
  cleanChecking (sample_world 5) 4 [stack_a; stack_b] sample_config = Returns tt ∧
  ∃ k : nat, (k < 4)%nat ∧ terminated_at sample_config stack_b k.
Proof.
  split; [vm_compute; reflexivity|].
  apply (cleanChecking_success_means_all_terminated (sample_world 5) 4
           [stack_a; stack_b] sample_config).
  - apply sample_world_ok.
  - apply (bool_decide_unpack _). vm_compute. exact I.
  - intros d k [->|[->|H]%elem_of_cons]%elem_of_cons; [by eexists..|inversion H].
  - vm_compute. reflexivity.
  - right. left.
Defined.


Lemma h_merge_keys entries l : h_merge entries l = (l ++ true_keys true entries)%list.
Proof.
  unfold h_merge, true_keys. revert l.
  induction entries as [|[key val] entries IH]; intros l; simpl; [by rewrite app_nil_r|].
  rewrite IH, filter_cons. simpl.
  destruct (String.eqb_spec key "error") as [->|Hne].
  - rewrite decide_False; [done|]. intros [_ H]. by apply H.
  - destruct val.
    + rewrite decide_True by done. simpl. by rewrite <- app_assoc.
    + rewrite decide_False; [done|]. by intros [? _].
Qed.

Lemma c_merge_keys entries l : c_merge entries l = (l ++ true_keys false entries)%list.
Proof.
  unfold c_merge, true_keys. revert l.
  induction entries as [|[key val] entries IH]; intros l; simpl; [by rewrite app_nil_r|].
  rewrite IH, filter_cons. simpl.
  destruct val.
  - rewrite decide_True by done. simpl. by rewrite <- app_assoc.
  - rewrite decide_False; [done|]. by intros [? _].
Qed.

Global Instance true_keys_perm b : Proper ((≡ₚ) ==> (≡ₚ)) (true_keys b).
Proof. intros e1 e2 He. unfold true_keys. by rewrite He. Qed.

Lemma IsStringInArray_perm s l1 l2 :
  l1 ≡ₚ l2 → IsStringInArray s l1 = IsStringInArray s l2.
Proof.
  intros Hp. destruct (IsStringInArray s l2) eqn:H2.
  - apply IsStringInArray_true. rewrite Hp. by apply IsStringInArray_true.
  - apply IsStringInArray_false. rewrite Hp. by apply IsStringInArray_false.
Qed.

Lemma to_probe_perm deployers l1 l2 :
  l1 ≡ₚ l2 → to_probe deployers l1 = to_probe deployers l2.
Proof.
  intros Hp. unfold to_probe. apply list_filter_iff. intros d.
  by rewrite (IsStringInArray_perm _ l1 l2).
Qed.

Section TwoSchedules.
Context (w1 w2 : World) (Hw1 : world_ok w1) (Hw2 : world_ok w2).

Lemma c_collect_perm k rets (l : list string) w (Hw : world_ok w) :
  c_collect w k rets l ≡ₚ l ++ (rets ≫= λ ret, true_keys false (map_to_list ret)).
Proof.
  revert l. induction rets as [|ret rets IH]; intros l; simpl; [by rewrite app_nil_r|].
  rewrite IH, c_merge_keys, (range_perm w Hw). by rewrite <- app_assoc.
Qed.

Lemma h_collect_perm k rets (l l' : list string) w (Hw : world_ok w) :
  h_collect w k rets l = inr l' →
  l' ≡ₚ l ++ (rets ≫= λ ret, true_keys true (map_to_list ret)).
Proof.
  revert l. induction rets as [|ret rets IH]; intros l; simpl.
  - intros [= <-]. by rewrite app_nil_r.
  - destruct (default false (ret !! "error")); [done|].
    intros ->%IH. rewrite h_merge_keys, (range_perm w Hw). by rewrite <- app_assoc.
Qed.

Lemma h_collect_total w k rets l :
  Forall (λ ret : gmap string bool, ret !! "error" ≠ Some true) rets →
  ∃ l', h_collect w k rets l = inr l'.
Proof.
  revert l. induction rets as [|ret rets IH]; intros l; simpl; [by eexists|].
  intros [Hret Hrest]%Forall_cons.
  destruct (ret !! "error") as [[]|]; simpl; [done| |]; by apply IH.
Qed.

Lemma h_body_same deployers config s1 s2 :
  (∀ k, now w1 k = now w2 k) → h_same s1 s2 →
  match h_body w1 deployers config s1, h_body w2 deployers config s2 with
  | inl e1, inl e2 => e1 = e2
  | inr a, inr b => h_same a b
  | _, _ => False
  end.
Proof.
  intros Hnow (Hr & Hh & Hl). unfold h_body, CheckTimeout.
  rewrite <- Hr, <- Hnow, <- (to_probe_perm deployers _ _ Hl).
  destruct (_ <? _)%Z; [done|].
  set (k := h_round s1). set (L := to_probe deployers (healthyStackList s1)).
  assert (Hrets : (λ d, HealthChecking d config k) <$> received w1 k L ≡ₚ
                  (λ d, HealthChecking d config k) <$> received w2 k L).
  { by rewrite (received_perm w1 Hw1), (received_perm w2 Hw2). }
  destruct (decide (Exists (λ ret : gmap string bool, ret !! "error" = Some true)
                      ((λ d, HealthChecking d config k) <$> received w1 k L))) as [Hex|Hnex].
  - apply Exists_exists in Hex as (ret & Hin & Hret).
    rewrite (h_collect_sentinel w1 k _ _ ret Hin Hret).
    rewrite Hrets in Hin. by rewrite (h_collect_sentinel w2 k _ _ ret Hin Hret).
  - apply not_Exists_Forall in Hnex; [|intros ?; apply _].
    assert (Hall1 : Forall (λ ret : gmap string bool, ret !! "error" ≠ Some true)
              ((λ d, HealthChecking d config k) <$> received w1 k L)).
    { eapply Forall_impl; [exact Hnex|]. intros ret H. exact H. }
    pose proof Hall1 as Hall2. rewrite Hrets in Hall2.
    destruct (h_collect_total w1 k _ (healthyStackList s1) Hall1) as [l1 H1].
    destruct (h_collect_total w2 k _ (healthyStackList s2) Hall2) as [l2 H2].
    rewrite H1, H2.
    apply (h_collect_perm _ _ _ _ w1 Hw1) in H1.
    apply (h_collect_perm _ _ _ _ w2 Hw2) in H2.
    assert (Hp : l1 ≡ₚ l2) by (by rewrite H1, H2, Hl, Hrets).
    split; [done|]. split; [simpl; by rewrite Hp | done].
Qed.

Lemma h_loop_same deployers config fuel s1 s2 :
  (∀ k, now w1 k = now w2 k) → h_same s1 s2 →
  h_loop w1 deployers config fuel s1 = h_loop w2 deployers config fuel s2.
Proof.
  intros Hnow. revert s1 s2. induction fuel as [|fuel IH]; intros s1 s2 Hs; simpl; [done|].
  pose proof Hs as (_ & <- & _). destruct (healthy s1); [done|].
  pose proof (h_body_same deployers config s1 s2 Hnow Hs) as Hb.
  destruct (h_body w1 deployers config s1), (h_body w2 deployers config s2);
    [by subst | done | done | by apply IH].
Qed.

Lemma c_body_same deployers config s1 s2 :
  c_same s1 s2 → c_same (c_body w1 deployers config s1) (c_body w2 deployers config s2).
Proof.
  intros (Hr & Hh & Hl). unfold c_body.
  rewrite <- Hr, <- (to_probe_perm deployers _ _ Hl).
  set (k := c_round s1). set (L := to_probe deployers (doneStackList s1)).
  assert (Hp : c_collect w1 k ((λ d, TerminateChecking d config k) <$> received w1 k L)
                 (doneStackList s1) ≡ₚ
               c_collect w2 k ((λ d, TerminateChecking d config k) <$> received w2 k L)
                 (doneStackList s2)).
  { rewrite (c_collect_perm _ _ _ w1 Hw1), (c_collect_perm _ _ _ w2 Hw2).
    by rewrite (received_perm w1 Hw1), (received_perm w2 Hw2), Hl. }
  split; [done|]. split; [simpl; by rewrite Hp | done].
Qed.

Lemma c_loop_same deployers config fuel s1 s2 :
  c_same s1 s2 →
  c_loop w1 deployers config fuel s1 = c_loop w2 deployers config fuel s2.
Proof.
  revert s1 s2. induction fuel as [|fuel IH]; intros s1 s2 Hs; simpl; [done|].
  pose proof Hs as (_ & <- & _). destruct (done s1); [done|].
  by apply IH, c_body_same.
Qed.

End TwoSchedules.

(** X5.  The outcome of a poller depends neither on the order in which the
    results of the probes of a round arrive on the channel nor on the order in
    which [range] visits a result: two worlds with the same clock give the
    same outcome of health convergence, and any two worlds give the same
    outcome of termination convergence. *)
Theorem pollers_do_not_depend_on_the_order_of_arrival
    (w1 w2 : World) (fuel : nat) (deployers : list DeployManager.t)
    (config : Config.t) :
  world_ok w1 → world_ok w2 →
  ((∀ k, now w1 k = now w2 k) →
   doHealthchecking w1 fuel deployers config = doHealthchecking w2 fuel deployers config)
  ∧ cleanChecking w1 fuel deployers config = cleanChecking w2 fuel deployers config.
Proof.
  intros Hw1 Hw2. split.
  - intros Hnow. by apply h_loop_same.
  - by apply c_loop_same.
Qed.

(** Results that arrive in the reverse order give the same outcomes. *)
Lemma order_of_arrival_witness :
  doHealthchecking (willing_world 5) 3 [stack_a; stack_b] sample_config
    = doHealthchecking (reversed_world 5) 3 [stack_a; stack_b] sample_config ∧
  cleanChecking (willing_world 5) 4 [stack_a; stack_b] sample_config
    = cleanChecking (reversed_world 5) 4 [stack_a; stack_b] sample_config.
Proof.
  split.
  - by apply (pollers_do_not_depend_on_the_order_of_arrival (willing_world 5)
                (reversed_world 5) 3 [stack_a; stack_b] sample_config
                (willing_world_ok 5) (reversed_world_ok 5)).
  - by apply (pollers_do_not_depend_on_the_order_of_arrival (willing_world 5)
                (reversed_world 5) 4 [stack_a; stack_b] sample_config
                (willing_world_ok 5) (reversed_world_ok 5)).
Defined.

Lemma deliver_nil {A} (order : list nat) : deliver order ([] : list A) = [].
Proof. unfold deliver. induction order as [|i order IH]; [done|]. by csimpl. Qed.

(** X6.  With an empty list of deployers termination convergence returns
    nil after one empty round; health convergence returns the timeout error
    when the deadline is passed at its first check, before any round, and nil
    otherwise. *)
Theorem pollers_without_deployers (w : World) (config : Config.t) (fuel : nat) :
  (2 ≤ fuel)%nat →
  cleanChecking w fuel [] config = Returns tt ∧
  (timed_out w config 0 →
   doHealthchecking w fuel [] config = Fails (ErrTimeout (Config.Timeout config))) ∧
  (¬ timed_out w config 0 → doHealthchecking w fuel [] config = Returns tt).
Proof.
  intros Hfuel. destruct fuel as [|[|fuel]]; [lia..|].
  split; [|split].
  - unfold cleanChecking. cbn [c_loop c_init done]. unfold c_body. cbn [doneStackList c_init].
    unfold to_probe, received. rewrite filter_nil, deliver_nil. reflexivity.
  - intros Ht. unfold doHealthchecking. cbn [h_loop h_init healthy].
    by rewrite (h_body_timeout w [] config h_init Ht).
  - intros Ht. unfold doHealthchecking. cbn [h_loop h_init healthy].
    unfold h_body, CheckTimeout. cbn [h_round healthyStackList h_init].
    destruct (_ <? _)%Z eqn:Hlt; [apply Z.ltb_lt in Hlt; by destruct Ht|].
    unfold to_probe, received. rewrite filter_nil, deliver_nil. reflexivity.
Qed.

(** Without deployers and with the clock at 100, past the timeout of 10,
    health convergence fails; with the clock at 5 it returns nil. *)
Lemma pollers_without_deployers_witness :
  cleanChecking (sample_world 100) 2 [] sample_config = Returns tt ∧
  doHealthchecking (sample_world 100) 2 [] sample_config = Fails (ErrTimeout 10) ∧
  doHealthchecking (sample_world 5) 2 [] sample_config = Returns tt.
Proof.
  split; [|split].
  - by apply (pollers_without_deployers (sample_world 100) sample_config 2).
  - apply (pollers_without_deployers (sample_world 100) sample_config 2); [lia|].
    unfold timed_out. cbn. lia.
  - apply (pollers_without_deployers (sample_world 5) sample_config 2); [lia|].
    unfold timed_out. cbn. lia.
Defined.

(** ** The modes deploy, delete and update *)

Lemma LocalCheck_verdict w r message e :
  verdict (LocalCheck w r message) = Fails e → e = ErrDeclined.
Proof.
  unfold LocalCheck. destruct (_ && _); [|done].
  run_simpl. destruct (negb _); run_simpl; [by intros [= <-] | done].
Qed.

Lemma LocalCheck_fuel w r message : verdict (LocalCheck w r message) ≠ OutOfFuel.
Proof.
  unfold LocalCheck. destruct (_ && _); [|done].
  run_simpl. by destruct (negb _).
Qed.

Lemma prepareDeployers_returns sv r stacks :
  ∃ ds, verdict (prepareDeployers sv r stacks) = Returns ds.
Proof.
  induction stacks as [|stack stacks [ds IH]]; [by eexists|].
  rewrite prepareDeployers_cons. cbv zeta. destruct (_ && _); [by exists ds|].
  rewrite verdict_bind, getDeployer_verdict, verdict_bind, IH. by eexists.
Qed.

Ltac forEach_returns :=
  repeat match goal with
         | |- context [verdict (forEach ?ds ?b)] =>
             rewrite (forEach_verdict ds b) by attempts_return
         end.

(** X7.  When the deploy flow fails, the error is the decline of the
    operator, the error of the summary printer, the error of the storage check
    of the metrics (only when metrics are enabled), or one of the two errors
    of health convergence; no error of a lifecycle operation, of the
    notification or of termination convergence is returned. *)
Theorem Deploy_fails_only_at_a_gate
    (w : World) (sv : Services) (fuel : nat) (r : Runner) (e : error) :
  let config := Builder.Config (Builder r) in
  verdict (Deploy w sv fuel r) = Fails e →
  e = ErrDeclined ∨
  PrintSummary sv (Config.Stack config) (Config.Region config) = Some e ∨
  (Builder.MetricConfigEnabled (Builder r) = true ∧ CheckStorage sv = Some e) ∨
  e = ErrTimeout (Config.Timeout config) ∨
  e = ErrHealthcheck.
Proof.
  intros config. unfold Deploy. fold config. run_simpl.
  destruct (prepareDeployers_returns sv r (Builder.Stacks (Builder r))) as [ds Hds].
  rewrite Hds. run_simpl. forEach_returns.
  destruct (verdict (LocalCheck w r _)) as [[]|e'|] eqn:Hlc;
    [|intros [= <-]; left; by eapply LocalCheck_verdict | done].
  destruct (PrintSummary sv _ _) as [e'|]; [intros [= <-]; right; by left|].
  match goal with |- context [verdict ?m] =>
    match m with
    | (if ValidClient sv then _ else _) =>
        assert (Hs : verdict m = Returns tt);
        [destruct (ValidClient sv);
         [by destruct (SendSummaryMessage sv _ _) | by destruct (negb _)] |
         rewrite Hs]
    end
  end.
  destruct (Builder.MetricConfigEnabled (Builder r)).
  - unfold CheckEnabledMetrics. run_simpl.
    destruct (CheckStorage sv) as [e'|]; [intros [= <-]; right; right; by left|].
    destruct (doHealthchecking w fuel ds config) as [[]|e'|] eqn:Hh; [| |done].
    + by destruct (cleanChecking w fuel ds config) as [[]|e'|] eqn:Hc;
        [| apply c_loop_never_fails in Hc |].
    + intros [= <-]. right; right; right. by eapply h_loop_fails.
  - run_simpl.
    destruct (doHealthchecking w fuel ds config) as [[]|e'|] eqn:Hh; [| |done].
    + by destruct (cleanChecking w fuel ds config) as [[]|e'|] eqn:Hc;
        [| apply c_loop_never_fails in Hc |].
    + intros [= <-]. right; right; right. by eapply h_loop_fails.
Qed.

(** With the clock at 100 the deploy flow fails, at the health gate. *)
Lemma Deploy_fails_witness :
  verdict (Deploy (willing_world 100) sample_services 10 sample_runner)
    = Fails (ErrTimeout 10) ∧
  (ErrTimeout 10 = ErrDeclined ∨
   PrintSummary sample_services "" "ap-northeast-2" = Some (ErrTimeout 10) ∨
   (Builder.MetricConfigEnabled (Builder sample_runner) = true ∧
    CheckStorage sample_services = Some (ErrTimeout 10)) ∨
   ErrTimeout 10 = ErrTimeout 10 ∨
   ErrTimeout 10 = ErrHealthcheck).
Proof.
  split; [vm_compute; reflexivity|].
  apply (Deploy_fails_only_at_a_gate (willing_world 100) sample_services 10
           sample_runner (ErrTimeout 10)).
  vm_compute. reflexivity.
Defined.


Lemma Forall_trace_bind {A B} (P : event → Prop) (m : run A) (f : A → run B) :
  Forall P (trace m) → (∀ a, verdict m = Returns a → Forall P (trace (f a))) →
  Forall P (trace (m ≫= f)).
Proof.
  intros Hm Hf. rewrite trace_bind. apply Forall_app. split; [done|].
  destruct (verdict m); [by apply Hf | constructor..].
Qed.

Lemma forEach_Forall (P : event → Prop) deployers body :
  (∀ d, d ∈ deployers → Forall P (trace (body d))) →
  Forall P (trace (forEach deployers body)).
Proof.
  induction deployers as [|d ds IH]; intros Hbody; [constructor|].
  cbn [forEach]. apply Forall_trace_bind; [apply Hbody; left|].
  intros _ _. apply IH. intros d' Hd'. apply Hbody. by right.
Qed.

Lemma attempt_Forall (P : event → Prop) op d config :
  P (EvCall op (GetStackName d)) →
  (∀ e, P (EvLogError op (GetStackName d) e)) →
  Forall P (trace (attempt op d config)).
Proof.
  intros Hcall Hlog. unfold attempt. run_simpl.
  constructor; [done|]. destruct (invoke op d config); run_simpl; by repeat constructor.
Qed.

Lemma LocalCheck_Forall (P : event → Prop) w r message :
  P (EvPrompt message) → Forall P (trace (LocalCheck w r message)).
Proof.
  intros HP. apply Forall_forall. by intros ev ->%LocalCheck_trace.
Qed.

Lemma prepareDeployers_spec sv r stacks :
  let config := Builder.Config (Builder r) in
  let chosen := filter (in_scope config) stacks in
  trace (prepareDeployers sv r stacks) = EvGetDeployer <$> (Stack.Stack <$> chosen) ∧
  verdict (prepareDeployers sv r stacks) =
  Returns ((λ stack,
             NewBlueGrean sv (Stack.ReplacementType stack)
               (if Stack.APITestEnabled stack
                then List.find (λ at_, String.eqb (Name at_) (Stack.APITestTemplate stack))
                       (Builder.APITestTemplates (Builder r))
                else None) stack (Config.Region config)) <$> chosen).
Proof.
  intros config chosen. unfold chosen. clear chosen.
  induction stacks as [|stack stacks [IHt IHv]]; [done|].
  rewrite prepareDeployers_cons. cbv zeta. fold config. rewrite filter_cons.
  destruct (String.eqb_spec (Config.Stack config) "") as [He|He];
    destruct (String.eqb_spec (Stack.Stack stack) (Config.Stack config)) as [Hs|Hs];
    cbn [negb andb].
  - rewrite decide_True by (by left). run_simpl.
    rewrite getDeployer_trace, getDeployer_verdict. run_simpl.
    rewrite IHt, IHv. run_simpl. by rewrite app_nil_r.
  - rewrite decide_True by (by left). run_simpl.
    rewrite getDeployer_trace, getDeployer_verdict. run_simpl.
    rewrite IHt, IHv. run_simpl. by rewrite app_nil_r.
  - rewrite decide_True by (by right). run_simpl.
    rewrite getDeployer_trace, getDeployer_verdict. run_simpl.
    rewrite IHt, IHv. run_simpl. by rewrite app_nil_r.
  - rewrite decide_False by (intros [?|?]; done). done.
Qed.

Lemma prepareDeployers_chosen sv r :
  trace (prepareDeployers sv r (Builder.Stacks (Builder r))) =
    EvGetDeployer <$> (Stack.Stack <$> chosen_stacks r) ∧
  verdict (prepareDeployers sv r (Builder.Stacks (Builder r))) =
    Returns (deployer_of sv r <$> chosen_stacks r).
Proof. apply prepareDeployers_spec. Qed.

Ltac trace_step :=
  apply Forall_trace_bind; [|intros ? _].

Lemma forEach_attempts_Forall (P : event → Prop) sv r (ops : list operation) body :
  (∀ d, Forall (λ ev, ∃ op, op ∈ ops ∧
                  (ev = EvCall op (GetStackName d) ∨
                   ∃ e, ev = EvLogError op (GetStackName d) e)) (trace (body d))) →
  (∀ stack op, stack ∈ chosen_stacks r → op ∈ ops →
     P (EvCall op (GetStackName (deployer_of sv r stack))) ∧
     ∀ e, P (EvLogError op (GetStackName (deployer_of sv r stack)) e)) →
  Forall P (trace (forEach (deployer_of sv r <$> chosen_stacks r) body)).
Proof.
  intros Hbody HP. apply forEach_Forall. intros d (stack & -> & Hstack)%list_elem_of_fmap.
  eapply Forall_impl; [apply Hbody|]. simpl.
  intros ev (op & Hop & [->|[e ->]]); by apply (HP stack op Hstack Hop).
Qed.

Lemma attempt_shape (ops : list operation) op d config :
  op ∈ ops →
  Forall (λ ev, ∃ op, op ∈ ops ∧
            (ev = EvCall op (GetStackName d) ∨
             ∃ e, ev = EvLogError op (GetStackName d) e)) (trace (attempt op d config)).
Proof.
  intros Hop. apply attempt_Forall; [by exists op; split; [|left] |].
  intros e. exists op. split; [done|]. right. by exists e.
Qed.

Lemma bind_shape {A} (Q : event → Prop) (m : run A) (k : run unit) :
  Forall Q (trace m) → Forall Q (trace k) → Forall Q (trace (m ;; k)).
Proof. intros Hm Hk. by apply Forall_trace_bind. Qed.

Ltac shape :=
  cbn beta;
  repeat (lazymatch goal with
          | |- Forall _ (trace (attempt _ _ _)) => fail
          | |- Forall _ (trace (_ ≫= _)) => apply bind_shape
          end);
  apply attempt_shape; unfold deploy_operations, delete_operations;
  by repeat constructor.

Lemma Deploy_Forall (P : event → Prop) w sv fuel r :
  Forall P (trace (LocalCheck w r "Do you really want to deploy this application? ")) →
  (∀ message, P (EvWarn message)) →
  (∀ stack, stack ∈ chosen_stacks r → P (EvGetDeployer (Stack.Stack stack))) →
  (∀ stack op, stack ∈ chosen_stacks r → op ∈ deploy_operations →
     P (EvCall op (GetStackName (deployer_of sv r stack))) ∧
     ∀ e, P (EvLogError op (GetStackName (deployer_of sv r stack)) e)) →
  Forall P (trace (Deploy w sv fuel r)).
Proof.
  intros Hprompt Hwarn Hget Hops. unfold Deploy.
  trace_step; [done|]. trace_step; [constructor|].
  trace_step.
  { destruct (ValidClient sv).
    - destruct (SendSummaryMessage sv _ _); by repeat constructor.
    - destruct (negb _); by repeat constructor. }
  trace_step.
  { destruct (Builder.MetricConfigEnabled _); constructor. }
  destruct (prepareDeployers_chosen sv r) as [Ht Hv].
  apply Forall_trace_bind.
  { rewrite Ht. apply Forall_fmap, Forall_fmap, Forall_forall. intros stack Hs. by apply Hget. }
  intros ds Hds. rewrite Hv in Hds. injection Hds as <-.
  trace_step; [apply (forEach_attempts_Forall P sv r deploy_operations); [intros d; shape | done]|].
  trace_step; [constructor|].
  trace_step; [apply (forEach_attempts_Forall P sv r deploy_operations); [intros d; shape | done]|].
  trace_step; [constructor|].
  trace_step; [apply (forEach_attempts_Forall P sv r deploy_operations); [intros d; shape | done]|].
  trace_step; [apply (forEach_attempts_Forall P sv r deploy_operations); [intros d; shape | done]|].
  constructor.
Qed.

Lemma Delete_Forall (P : event → Prop) w sv fuel r :
  Forall P (trace (LocalCheck w r "Do you really want to delete applications? ")) →
  (∀ stack, stack ∈ chosen_stacks r → P (EvGetDeployer (Stack.Stack stack))) →
  (∀ stack op, stack ∈ chosen_stacks r → op ∈ delete_operations →
     P (EvCall op (GetStackName (deployer_of sv r stack))) ∧
     ∀ e, P (EvLogError op (GetStackName (deployer_of sv r stack)) e)) →
  Forall P (trace (Delete w sv fuel r)).
Proof.
  intros Hprompt Hget Hops. unfold Delete.
  trace_step; [done|].
  set (r' := {| Builder := _ |}).
  change (chosen_stacks r) with (chosen_stacks r') in Hget, Hops.
  change (deployer_of sv r) with (deployer_of sv r') in Hops.
  trace_step.
  { destruct (Builder.MetricConfigEnabled _); constructor. }
  destruct (prepareDeployers_chosen sv r') as [Ht Hv].
  apply Forall_trace_bind.
  { rewrite Ht. apply Forall_fmap, Forall_fmap, Forall_forall. intros stack Hs. by apply Hget. }
  intros ds Hds. rewrite Hv in Hds. injection Hds as <-.
  trace_step; [apply (forEach_attempts_Forall P sv r' delete_operations); [intros d; shape | done]|].
  trace_step; [constructor|].
  trace_step; [apply (forEach_attempts_Forall P sv r' delete_operations); [intros d; shape | done]|].
  constructor.
Qed.

Lemma chosen_in_scope r stack :
  stack ∈ chosen_stacks r →
  stack ∈ Builder.Stacks (Builder r) ∧ in_scope (Builder.Config (Builder r)) stack.
Proof. unfold chosen_stacks. rewrite list_elem_of_filter. tauto. Qed.

(** X8.  The deploy and the delete flow construct deployers only for
    stacks of the manifest that pass the stack filter of the configuration,
    and, when a deployer answers with the name of its stack, call lifecycle
    operations only for such stacks. *)
Theorem runs_stay_within_the_stack_filter
    (w : World) (sv : Services) (fuel : nat) (r : Runner) :
  let allowed := λ x : string,
    ∃ stack, stack ∈ Builder.Stacks (Builder r) ∧ Stack.Stack stack = x ∧
             in_scope (Builder.Config (Builder r)) stack in
  (∀ x, EvGetDeployer x ∈ trace (Deploy w sv fuel r) ∨
        EvGetDeployer x ∈ trace (Delete w sv fuel r) → allowed x)
  ∧
  ((∀ stack, stack ∈ chosen_stacks r →
      GetStackName (deployer_of sv r stack) = Stack.Stack stack) →
   ∀ op x, (op, x) ∈ calls (trace (Deploy w sv fuel r)) ∨
           (op, x) ∈ calls (trace (Delete w sv fuel r)) → allowed x).
Proof.
  intros allowed.
  assert (Hchosen : ∀ stack, stack ∈ chosen_stacks r → allowed (Stack.Stack stack)).
  { intros stack [Hin Hscope]%chosen_in_scope. by exists stack. }
  split.
  - set (P := λ ev, match ev with EvGetDeployer x => allowed x | _ => True end).
    assert (HD : Forall P (trace (Deploy w sv fuel r))).
    { apply Deploy_Forall; [by apply LocalCheck_Forall | done | done |].
      intros stack op _ _. split; done. }
    assert (HX : Forall P (trace (Delete w sv fuel r))).
    { apply Delete_Forall; [by apply LocalCheck_Forall | done |].
      intros stack op _ _. split; done. }
    rewrite Forall_forall in HD, HX.
    intros x [Hx|Hx]; [apply (HD _ Hx) | apply (HX _ Hx)].
  - intros Hnamed.
    set (P := λ ev, match ev with EvCall _ x => allowed x | _ => True end).
    assert (HD : Forall P (trace (Deploy w sv fuel r))).
    { apply Deploy_Forall; [by apply LocalCheck_Forall | done | done |].
      intros stack op Hs _. split; [|done]. simpl. rewrite Hnamed by done. by apply Hchosen. }
    assert (HX : Forall P (trace (Delete w sv fuel r))).
    { apply Delete_Forall; [by apply LocalCheck_Forall | done |].
      intros stack op Hs _. split; [|done]. simpl. rewrite Hnamed by done. by apply Hchosen. }
    rewrite Forall_forall in HD, HX.
    intros op x [Hx%elem_of_calls|Hx%elem_of_calls]; [apply (HD _ Hx) | apply (HX _ Hx)].
Qed.

(** With the stack filter "B" the deployer constructed is that of a stack of
    the manifest that passes the filter. *)
Lemma stack_filter_witness :
  EvGetDeployer "B" ∈ trace (Deploy (willing_world 5) sample_services 10 (runner_for "B")) ∧
  ∃ stack, stack ∈ [sample_stack "A"; sample_stack "B"] ∧ Stack.Stack stack = "B" ∧
           in_scope (Builder.Config (Builder (runner_for "B"))) stack.
Proof.
  assert (Hin : EvGetDeployer "B" ∈
            trace (Deploy (willing_world 5) sample_services 10 (runner_for "B"))).
  { vm_compute. by repeat constructor. }
  split; [exact Hin|].
  apply (runs_stay_within_the_stack_filter (willing_world 5) sample_services 10
           (runner_for "B")).
  by left.
Defined.

(** X9.  The delete flow calls no lifecycle operation other than
    CheckPrevious, SkipDeployStep, TriggerLifecycleCallbacks,
    CleanPreviousVersion and GatherMetrics (never Deploy, FinishAdditionalWork
    or RunAPITest), and it fails only with the decline of the operator or,
    when metrics are enabled, with the error of the storage check. *)
Theorem Delete_only_cleans_up
    (w : World) (sv : Services) (fuel : nat) (r : Runner) :
  (∀ op x, (op, x) ∈ calls (trace (Delete w sv fuel r)) → op ∈ delete_operations)
  ∧
  (∀ e, verdict (Delete w sv fuel r) = Fails e →
        e = ErrDeclined ∨
        (Builder.MetricConfigEnabled (Builder r) = true ∧ CheckStorage sv = Some e)).
Proof.
  split.
  - set (P := λ ev, match ev with EvCall op _ => op ∈ delete_operations | _ => True end).
    assert (HX : Forall P (trace (Delete w sv fuel r))).
    { apply Delete_Forall; [by apply LocalCheck_Forall | done |].
      intros stack op _ Hop. split; done. }
    rewrite Forall_forall in HX.
    intros op x Hx%elem_of_calls. apply (HX _ Hx).
  - intros e. unfold Delete. run_simpl.
    set (r' := {| Builder := _ |}).
    destruct (prepareDeployers_returns sv r' (Builder.Stacks (Builder r'))) as [ds Hds].
    rewrite Hds. run_simpl. forEach_returns.
    destruct (verdict (LocalCheck w r _)) as [[]|e'|] eqn:Hlc;
      [|intros [= <-]; left; by eapply LocalCheck_verdict | done].
    change (Builder.MetricConfigEnabled (Builder r')) with
      (Builder.MetricConfigEnabled (Builder r)).
    destruct (Builder.MetricConfigEnabled (Builder r)).
    + unfold CheckEnabledMetrics. run_simpl.
      destruct (CheckStorage sv) as [e'|]; [intros [= <-]; by right|].
      by destruct (cleanChecking w fuel ds _) as [[]|e'|] eqn:Hc;
        [| apply c_loop_never_fails in Hc |].
    + run_simpl.
      by destruct (cleanChecking w fuel ds _) as [[]|e'|] eqn:Hc;
        [| apply c_loop_never_fails in Hc |].
Qed.

(** The delete flow of the sample runner gathers the metrics of stack "B",
    one of the operations of the delete mode. *)
Lemma Delete_only_cleans_up_witness :
  (OpGatherMetrics, "B") ∈
    calls (trace (Delete (willing_world 5) sample_services 10 sample_runner)) ∧
  OpGatherMetrics ∈ delete_operations.
Proof.
  assert (Hin : (OpGatherMetrics, "B") ∈
            calls (trace (Delete (willing_world 5) sample_services 10 sample_runner))).
  { vm_compute. by repeat constructor. }
  split; [exact Hin|].
  by apply (Delete_only_cleans_up (willing_world 5) sample_services 10 sample_runner)
    in Hin.
Defined.

Lemma Delete_same f w sv fuel r :
  (∀ d, GetStackName (f d) = GetStackName d) →
  (∀ d, TerminateChecking (f d) = TerminateChecking d) →
  same_run eq (Delete w (with_deployers f sv) fuel r) (Delete w sv fuel r).
Proof.
  intros Hname Hterm. unfold Delete.
  eapply same_run_bind; [apply same_run_refl | intros _ _ _].
  eapply same_run_bind; [apply same_run_refl | intros _ _ _].
  eapply same_run_bind; [by apply prepareDeployers_same | intros ds1 ds ->].
  eapply same_run_bind; [apply forEach_same | intros _ _ _].
  { intros d. repeat (eapply same_run_bind; [by apply attempt_same | intros _ _ _]).
    by apply attempt_same. }
  rewrite cleanChecking_fmap by done.
  eapply same_run_bind; [apply same_run_refl | intros _ _ _].
  eapply same_run_bind; [apply forEach_same | intros _ _ _].
  { intros d. by apply attempt_same. }
  apply same_run_refl.
Qed.

Lemma Delete_full w sv fuel r stack op :
  verdict (Delete w sv fuel r) = Returns tt →
  stack ∈ chosen_stacks r → op ∈ delete_operations →
  (op, GetStackName (deployer_of sv r stack)) ∈ calls (trace (Delete w sv fuel r)).
Proof.
  intros Hv Hstack Hop. apply elem_of_calls. revert Hv. unfold Delete.
  set (r' := {| Builder := _ |}).
  set (config := Builder.Config (Builder r')).
  change (chosen_stacks r) with (chosen_stacks r') in Hstack.
  change (deployer_of sv r) with (deployer_of sv r').
  destruct (prepareDeployers_chosen sv r') as [_ Hds].
  run_simpl. rewrite Hds. run_simpl. forEach_returns.
  destruct (verdict (LocalCheck w r _)) as [[]| |]; [|done..].
  match goal with |- context [verdict ?m] =>
    match m with
    | (if Builder.MetricConfigEnabled _ then _ else _) =>
        destruct (verdict m) as [[]| |]; [|done..]
    end
  end.
  destruct (cleanChecking w fuel _ config) as [[]| |]; [|done..].
  intros _. rewrite !elem_of_app.
  set (d := deployer_of sv r' stack).
  assert (Hd : d ∈ deployer_of sv r' <$> chosen_stacks r') by (by apply list_elem_of_fmap_2).
  assert (Hin : ∀ body, (∀ d', verdict (body d') = Returns tt) →
            EvCall op (GetStackName d) ∈ trace (body d) →
            EvCall op (GetStackName d) ∈
              trace (forEach (deployer_of sv r' <$> chosen_stacks r') body)).
  { intros body Hb Hev. by apply (forEach_trace _ body d). }
  unfold delete_operations in Hop.
  repeat (apply elem_of_cons in Hop as [->|Hop]); [| | | | |inversion Hop].
  - do 3 right. left. apply Hin; [attempts_return|].
    rewrite !trace_bind, !attempt_verdict, !elem_of_app. left. apply attempt_trace.
  - do 3 right. left. apply Hin; [attempts_return|].
    rewrite !trace_bind, !attempt_verdict, !elem_of_app. right. left. apply attempt_trace.
  - do 3 right. left. apply Hin; [attempts_return|].
    rewrite !trace_bind, !attempt_verdict, !elem_of_app. right. right. left. apply attempt_trace.
  - do 3 right. left. apply Hin; [attempts_return|].
    rewrite !trace_bind, !attempt_verdict, !elem_of_app. right. right. right. apply attempt_trace.
  - do 4 right. left. apply Hin; [attempts_return | apply attempt_trace].
Qed.

(** X10.  Put any outcomes in place of the outcomes of the lifecycle
    operations of the deployers: the delete flow returns the same verdict and
    makes the same calls; and when it returns nil, each of its five operations
    has been called for every stack that passes the filter. *)
Theorem Delete_per_stack_errors_are_not_fatal
    (w : World) (sv : Services) (fuel : nat) (r : Runner)
    (o : string → operation → Config.t → option error) :
  let original := Delete w sv fuel r in
  let changed := Delete w (with_deployers (reassign o) sv) fuel r in
  verdict changed = verdict original ∧
  calls (trace changed) = calls (trace original) ∧
  (verdict original = Returns tt →
   ∀ stack op, stack ∈ chosen_stacks r → op ∈ delete_operations →
     (op, GetStackName (deployer_of sv r stack)) ∈ calls (trace original)).
Proof.
  intros original changed.
  destruct (same_run_eq changed original) as [Hv Hc].
  { by apply Delete_same. }
  split; [done|]. split; [done|].
  intros Hret stack op Hs Hop. by apply Delete_full.
Qed.

(** Every lifecycle operation of stack "B" fails, and its metrics are
    gathered all the same. *)
Lemma Delete_per_stack_errors_witness :
  (OpGatherMetrics, "B") ∈
    calls (trace (Delete (willing_world 5) sample_services 10 sample_runner)).
Proof.
  pose proof (Delete_per_stack_errors_are_not_fatal (willing_world 5) sample_services
                10 sample_runner (λ _ _ _, None)) as (_ & _ & Hall).
  apply (Hall ltac:(vm_compute; reflexivity) (sample_stack "B") OpGatherMetrics).
  - vm_compute. by repeat constructor.
  - vm_compute. by repeat constructor.
Defined.

Lemma LocalCheck_bypassed w r message :
  GOOS w ≠ "darwin" ∨ Config.AutoApply (Builder.Config (Builder r)) = true →
  LocalCheck w r message = mret tt.
Proof.
  unfold LocalCheck. intros [Hos | ->].
  - destruct (String.eqb_spec (GOOS w) "darwin"); done.
  - by rewrite andb_false_r.
Qed.

Lemma LocalCheck_returns w r message :
  verdict (LocalCheck w r message) = Returns tt ↔
  (GOOS w = "darwin" → Config.AutoApply (Builder.Config (Builder r)) = false →
   AskContinue w message = true).
Proof.
  unfold LocalCheck.
  destruct (String.eqb_spec (GOOS w) "darwin") as [Hos|Hos].
  - destruct (Config.AutoApply _); cbn [andb negb].
    + split; [intros _ _ H; discriminate | done].
    + run_simpl. destruct (AskContinue w message); cbn [negb]; run_simpl.
      * split; done.
      * split; [done | intros H; specialize (H Hos eq_refl); discriminate].
  - cbn [andb]. split; [intros _ H; done | done].
Qed.

(** X11.  The deploy flow returns nil exactly when the operator has not
    declined, the summary printer and (with metrics enabled) the storage check
    return nil, and health convergence and termination convergence return nil
    for the deployers of the stacks that pass the filter. *)
Theorem Deploy_succeeds_iff (w : World) (sv : Services) (fuel : nat) (r : Runner) :
  let config := Builder.Config (Builder r) in
  let deployers := deployer_of sv r <$> chosen_stacks r in
  verdict (Deploy w sv fuel r) = Returns tt ↔
  (GOOS w = "darwin" → Config.AutoApply config = false →
   AskContinue w "Do you really want to deploy this application? " = true) ∧
  PrintSummary sv (Config.Stack config) (Config.Region config) = None ∧
  (Builder.MetricConfigEnabled (Builder r) = true → CheckStorage sv = None) ∧
  doHealthchecking w fuel deployers config = Returns tt ∧
  cleanChecking w fuel deployers config = Returns tt.
Proof.
  intros config deployers.
  pose proof (LocalCheck_returns w r "Do you really want to deploy this application? ")
    as Hlc. fold config in Hlc. rewrite <- Hlc. clear Hlc.
  unfold Deploy. fold config. run_simpl.
  destruct (prepareDeployers_chosen sv r) as [_ Hds]. rewrite Hds. fold deployers.
  run_simpl. forEach_returns.
  destruct (verdict (LocalCheck w r _)) as [[]| |]; [|split; [done | by intros [? _]]..].
  destruct (PrintSummary sv _ _); [split; [done | by intros (_ & ? & _)]|].
  match goal with |- context [verdict ?m] =>
    match m with
    | (if ValidClient sv then _ else _) =>
        assert (Hs : verdict m = Returns tt);
        [destruct (ValidClient sv);
         [by destruct (SendSummaryMessage sv _ _) | by destruct (negb _)] |
         rewrite Hs]
    end
  end.
  destruct (Builder.MetricConfigEnabled (Builder r)).
  - unfold CheckEnabledMetrics. run_simpl.
    destruct (CheckStorage sv); [split; [done | intros (_ & _ & H & _); by specialize (H eq_refl)]|].
    destruct (doHealthchecking w fuel deployers config) as [[]| |];
      [|split; [done | by intros (_ & _ & _ & ? & _)]..].
    destruct (cleanChecking w fuel deployers config) as [[]| |];
      [|split; [done | by intros (_ & _ & _ & _ & ?)]..].
    done.
  - run_simpl.
    destruct (doHealthchecking w fuel deployers config) as [[]| |];
      [|split; [done | by intros (_ & _ & _ & ? & _)]..].
    destruct (cleanChecking w fuel deployers config) as [[]| |];
      [|split; [done | by intros (_ & _ & _ & _ & ?)]..].
    done.
Qed.

(** The deploy flow of the sample runner returns nil, so both pollers have
    returned nil for its two deployers. *)
Lemma Deploy_succeeds_witness :
  doHealthchecking (willing_world 5) 10 [stack_a; stack_b] sample_config = Returns tt ∧
  cleanChecking (willing_world 5) 10 [stack_a; stack_b] sample_config = Returns tt.
Proof.
  apply (Deploy_succeeds_iff (willing_world 5) sample_services 10 sample_runner).
  vm_compute. reflexivity.
Defined.

Lemma Update_Forall (P : event → Prop) w sv fuel r :
  Forall P (trace (LocalCheck w r "Do you really want to update? ")) →
  (∀ old new, P (EvShow old new)) →
  (∀ asg c, P (EvInspectorUpdate asg c)) →
  (∀ x, P (EvGetDeployer x)) →
  Forall P (trace (Update w sv fuel r)).
Proof.
  intros Hprompt Hshow Hupd Hget. unfold Update.
  trace_step; [constructor|]. trace_step; [constructor|].
  trace_step; [constructor|]. trace_step; [by repeat constructor|].
  trace_step; [done|]. trace_step; [by repeat constructor|].
  trace_step; [constructor|].
  trace_step; [rewrite getDeployer_trace; by repeat constructor|].
  trace_step; constructor.
Qed.

(** X12.  Off a Mac, or with auto-apply set, none of the three modes shows
    a prompt. *)
Theorem no_prompt_when_confirmation_is_bypassed
    (w : World) (sv : Services) (fuel : nat) (r : Runner) (message : string) :
  GOOS w ≠ "darwin" ∨ Config.AutoApply (Builder.Config (Builder r)) = true →
  (EvPrompt message ∉ trace (Deploy w sv fuel r)) ∧
  (EvPrompt message ∉ trace (Delete w sv fuel r)) ∧
  (EvPrompt message ∉ trace (Update w sv fuel r)).
Proof.
  intros Hby.
  set (P := λ ev, match ev with EvPrompt _ => False | _ => True end).
  assert (Hlc : ∀ m, Forall P (trace (LocalCheck w r m))).
  { intros m. rewrite (LocalCheck_bypassed w r m Hby). constructor. }
  assert (HD : Forall P (trace (Deploy w sv fuel r))).
  { apply Deploy_Forall; [done..|]. by intros stack op _ _. }
  assert (HX : Forall P (trace (Delete w sv fuel r))).
  { apply Delete_Forall; [done..|]. by intros stack op _ _. }
  assert (HU : Forall P (trace (Update w sv fuel r))).
  { by apply Update_Forall. }
  rewrite Forall_forall in HD, HX, HU.
  split; [|split]; intros H; [apply (HD _ H) | apply (HX _ H) | apply (HU _ H)].
Qed.

(** Off a Mac the three modes show no prompt. *)
Lemma no_prompt_witness :
  (GOOS (linux_world 5) ≠ "darwin" ∨
   Config.AutoApply (Builder.Config (Builder sample_runner)) = true) ∧
  (EvPrompt "Do you really want to deploy this application? "
     ∉ trace (Deploy (linux_world 5) sample_services 10 sample_runner)) ∧
  (EvPrompt "Do you really want to delete applications? "
     ∉ trace (Delete (linux_world 5) sample_services 10 sample_runner)) ∧
  (EvPrompt "Do you really want to update? "
     ∉ trace (Update (linux_world 5) sample_services 10 sample_runner)).
Proof.
  assert (Hby : GOOS (linux_world 5) ≠ "darwin" ∨
                Config.AutoApply (Builder.Config (Builder sample_runner)) = true).
  { left. discriminate. }
  split; [exact Hby|].
  split; [|split].
  - apply (no_prompt_when_confirmation_is_bypassed (linux_world 5) sample_services 10
             sample_runner _ Hby).
  - apply (no_prompt_when_confirmation_is_bypassed (linux_world 5) sample_services 10
             sample_runner _ Hby).
  - apply (no_prompt_when_confirmation_is_bypassed (linux_world 5) sample_services 10
             sample_runner _ Hby).
Defined.

Lemma newCapacity_without_override config old :
  (Config.Min config < 0)%Z → (Config.Max config < 0)%Z → (Config.Desired config < 0)%Z →
  newCapacity config old = old.
Proof.
  intros H1 H2 H3. unfold newCapacity, nullCheck, makeCapacityStruct.
  apply Z.ltb_lt in H1, H2, H3. rewrite H1, H2, H3. by destruct old.
Qed.

Lemma CheckUpdateInformation_None old new :
  CheckUpdateInformation old new = None ↔
  (Min new ≤ Desired new)%Z ∧ (Desired new ≤ Max new)%Z ∧ new ≠ old.
Proof.
  unfold CheckUpdateInformation.
  destruct (Z.gtb_spec (Min new) (Max new)); [split; [done | lia]|].
  destruct (Z.gtb_spec (Min new) (Desired new)); [split; [done | lia]|].
  destruct (Z.gtb_spec (Desired new) (Max new)); [split; [done | lia]|].
  destruct (decide (old = new)) as [->|Hne].
  - rewrite bool_decide_eq_true_2 by done. split; [done | by intros (_ & _ & ?)].
  - rewrite bool_decide_eq_false_2 by done. split; [|done].
    intros _. repeat split; [lia.. | congruence].
Qed.

(** X13.  When the configuration overrides none of minimum, maximum and
    desired capacity, the update mode fails before anything is shown, asked or
    changed; when the group fetched has its capacities in order, the error is
    that nothing is updated. *)
Theorem Update_without_override_is_refused
    (w : World) (sv : Services) (fuel : nat) (r : Runner) :
  let config := Builder.Config (Builder r) in
  (Config.Min config < 0)%Z → (Config.Max config < 0)%Z → (Config.Desired config < 0)%Z →
  trace (Update w sv fuel r) = [] ∧
  ∃ e, verdict (Update w sv fuel r) = Fails e ∧
       ∀ handle group,
         SelectStack sv (Config.Application config) = inr handle →
         GetStackInformation sv handle = inr group →
         (MinSize group ≤ DesiredCapacity group)%Z →
         (DesiredCapacity group ≤ MaxSize group)%Z →
         e = ErrNothingUpdated.
Proof.
  intros config H1 H2 H3. unfold Update. fold config. run_simpl.
  destruct (SelectStack sv _) as [e|handle]; run_simpl.
  { split; [done|]. exists e. split; [done | by intros ? ? [=]]. }
  destruct (GetStackInformation sv handle) as [e|group] eqn:Hg; run_simpl.
  { split; [done|]. exists e. split; [done|]. intros ? ? [= <-] Hg'. congruence. }
  rewrite (newCapacity_without_override config _ H1 H2 H3).
  destruct (CheckUpdateInformation (oldCapacity group) (oldCapacity group)) as [e|] eqn:Hc.
  - run_simpl. split; [done|]. exists e. split; [done|].
    intros ? g [= <-] Hg' Hle1 Hle2. rewrite Hg in Hg'. injection Hg' as <-. revert Hc. unfold CheckUpdateInformation. simpl.
    destruct (Z.gtb_spec (MinSize group) (MaxSize group)); [lia|].
    destruct (Z.gtb_spec (MinSize group) (DesiredCapacity group)); [lia|].
    destruct (Z.gtb_spec (DesiredCapacity group) (MaxSize group)); [lia|].
    rewrite bool_decide_eq_true_2 by done. by intros [= <-].
  - apply CheckUpdateInformation_None in Hc as (_ & _ & Hne). done.
Qed.

(** Without any override the update of the sample group, of capacity
    1, 5, 2, is refused: nothing has changed. *)
Lemma Update_without_override_witness :
  trace (Update (willing_world 5) sample_services 10 idle_runner) = [] ∧
  verdict (Update (willing_world 5) sample_services 10 idle_runner)
    = Fails ErrNothingUpdated.
Proof.
  destruct (Update_without_override_is_refused (willing_world 5) sample_services 10
              idle_runner) as (Ht & e & Hv & He); [cbn; lia..|].
  split; [exact Ht|]. rewrite Hv. f_equal.
  apply (He "hello-asg" {| MinSize := 1; MaxSize := 5; DesiredCapacity := 2;
                           AutoScalingGroupName := "hello-asg" |});
    [reflexivity | reflexivity | cbn; lia | cbn; lia].
Defined.

(** X14.  When the update mode hands a capacity to the inspector, that
    capacity has minimum, desired and maximum in order and differs from the
    capacity of the group fetched, the group is the one selected for the
    application, and the operator has agreed if a prompt was due. *)
Theorem Update_applies_only_a_valid_confirmed_change
    (w : World) (sv : Services) (fuel : nat) (r : Runner)
    (asg : string) (capacity : Capacity) :
  let config := Builder.Config (Builder r) in
  EvInspectorUpdate asg capacity ∈ trace (Update w sv fuel r) →
  (Min capacity ≤ Desired capacity)%Z ∧ (Desired capacity ≤ Max capacity)%Z ∧
  (GOOS w = "darwin" → Config.AutoApply config = false →
   AskContinue w "Do you really want to update? " = true) ∧
  ∃ handle group,
    SelectStack sv (Config.Application config) = inr handle ∧
    GetStackInformation sv handle = inr group ∧
    asg = AutoScalingGroupName group ∧
    capacity ≠ makeCapacityStruct (MinSize group) (MaxSize group) (DesiredCapacity group).
Proof.
  intros config. unfold Update. fold config.
  intros Hin. run_simpl_in Hin.
  destruct (SelectStack sv _) as [e|handle]; run_simpl_in Hin; [inversion Hin|].
  destruct (GetStackInformation sv handle) as [e|group] eqn:Hg; run_simpl_in Hin;
    [inversion Hin|].
  destruct (CheckUpdateInformation _ _) eqn:Hc; run_simpl_in Hin; [inversion Hin|].
  apply CheckUpdateInformation_None in Hc as (Hc1 & Hc2 & Hc3).
  apply elem_of_cons in Hin as [[=]|Hin].
  apply elem_of_app in Hin as [Hin%LocalCheck_trace|Hin]; [done|].
  destruct (verdict (LocalCheck w r _)) as [[]| |] eqn:Hlc; [|inversion Hin..].
  apply elem_of_cons in Hin as [[= -> ->]|Hin].
  - split; [done|]. split; [done|]. split; [by apply LocalCheck_returns|].
    by exists handle, group.
  - destruct (InspectorUpdate sv _ _); run_simpl_in Hin; [inversion Hin|].
    rewrite getDeployer_trace, getDeployer_verdict in Hin. run_simpl_in Hin.
    apply elem_of_cons in Hin as [[=]|Hin].
    destruct (doHealthchecking _ _ _ _); inversion Hin.
Qed.

(** The sample runner asks for a desired capacity of 4 in a group of
    capacity 1, 5, 2: the update is applied, the operator had agreed, and the
    capacity applied keeps the order of minimum, desired and maximum. *)
Lemma Update_applies_witness :
  EvInspectorUpdate "hello-asg" (makeCapacityStruct 1 5 4)
    ∈ trace (Update (willing_world 5) sample_services 10 sample_runner) ∧
  (1 ≤ 4)%Z ∧ (4 ≤ 5)%Z ∧
  AskContinue (willing_world 5) "Do you really want to update? " = true.
Proof.
  assert (Hin : EvInspectorUpdate "hello-asg" (makeCapacityStruct 1 5 4)
                  ∈ trace (Update (willing_world 5) sample_services 10 sample_runner)).
  { vm_compute. by repeat constructor. }
  split; [exact Hin|].
  apply (Update_applies_only_a_valid_confirmed_change (willing_world 5) sample_services
           10 sample_runner) in Hin as (H1 & H2 & H3 & _).
  split; [exact H1|]. split; [exact H2|]. by apply H3.
Defined.

(** ** Paths in S3 *)

Lemma append_cons c (s1 s2 : string) : String c s1 +:+ s2 = String c (s1 +:+ s2).
Proof. reflexivity. Qed.

Lemma append_nil_l (s : string) : "" +:+ s = s.
Proof. reflexivity. Qed.

Lemma append_nil_r (s : string) : s +:+ "" = s.
Proof. induction s as [|c s IH]; [done|]. by rewrite append_cons, IH. Qed.

Lemma append_assoc (s1 s2 s3 : string) : (s1 +:+ s2) +:+ s3 = s1 +:+ (s2 +:+ s3).
Proof. induction s1 as [|c s1 IH]; [done|]. by rewrite !append_cons, IH. Qed.

Lemma has_byte_app c (s1 s2 : string) :
  has_byte c (s1 +:+ s2) = has_byte c s1 || has_byte c s2.
Proof.
  induction s1 as [|c' s1 IH]; [done|].
  rewrite append_cons. cbn [has_byte]. rewrite IH. by rewrite orb_assoc.
Qed.

Lemma split_from_nonempty sep cur s : split_from sep cur s ≠ [].
Proof.
  revert cur. induction s as [|c s IH]; intros cur; simpl; [done|].
  destruct (Ascii.eqb c sep); [done|apply IH].
Qed.

Lemma Join_cons e elems sep :
  elems ≠ [] → Join (e :: elems) sep = e +:+ sep +:+ Join elems sep.
Proof. by destruct elems. Qed.

Lemma Join_split_from sep cur s :
  Join (split_from sep cur s) (String sep "") = cur +:+ s.
Proof.
  revert cur. induction s as [|c s IH]; intros cur; simpl.
  - by rewrite append_nil_r.
  - destruct (Ascii.eqb_spec c sep) as [->|Hne].
    + rewrite Join_cons by apply split_from_nonempty.
      by rewrite IH.
    + by rewrite IH, append_assoc.
Qed.

Lemma split_from_pieces sep cur s piece :
  has_byte sep cur = false →
  piece ∈ split_from sep cur s → has_byte sep piece = false.
Proof.
  revert cur. induction s as [|c s IH]; intros cur Hcur; simpl.
  - by intros ->%list_elem_of_singleton.
  - destruct (Ascii.eqb_spec c sep) as [->|Hne].
    + intros [->|Hin]%elem_of_cons; [done|]. by apply (IH "").
    + apply IH. rewrite has_byte_app, Hcur. cbn [has_byte orb].
      apply Ascii.eqb_neq in Hne. by rewrite Hne.
Qed.

Lemma split_from_first sep cur (b k : string) :
  has_byte sep b = false →
  split_from sep cur (b +:+ String sep k) = (cur +:+ b) :: split_from sep "" k.
Proof.
  revert cur. induction b as [|c b IH]; intros cur Hb.
  - rewrite append_nil_l. cbn [split_from]. by rewrite Ascii.eqb_refl, append_nil_r.
  - cbn [has_byte] in Hb. apply orb_false_iff in Hb as [Hc Hb].
    rewrite append_cons. cbn [split_from].
    rewrite Hc, IH, append_assoc by done. done.
Qed.

Lemma split_from_whole sep cur (b : string) :
  has_byte sep b = false → split_from sep cur b = [cur +:+ b].
Proof.
  revert cur. induction b as [|c b IH]; intros cur Hb.
  - cbn [split_from]. by rewrite append_nil_r.
  - cbn [has_byte] in Hb. apply orb_false_iff in Hb as [Hc Hb].
    cbn [split_from]. rewrite Hc, IH, append_assoc by done. done.
Qed.

Lemma prefix_append (old rest : string) : String.prefix old (old +:+ rest) = true.
Proof.
  induction old as [|c old IH]; [by destruct rest|].
  rewrite append_cons. cbn [String.prefix].
  destruct (ascii_dec c c); [done|congruence].
Qed.

Lemma remove_from_skip old (u s : string) :
  remove_from old (String.length u) (u +:+ s) = remove_from old 0 s.
Proof. induction u as [|c u IH]; [by destruct s|]. by rewrite append_cons. Qed.

Lemma remove_from_prefix old rest :
  old ≠ "" → remove_from old 0 (old +:+ rest) = remove_from old 0 rest.
Proof.
  intros Hold. pose proof (prefix_append old rest) as Hp.
  destruct old as [|c old]; [done|].
  rewrite append_cons in *.
  cbn [remove_from]. rewrite Hp. cbn [String.length].
  replace (S (String.length old) - 1)%nat with (String.length old) by lia.
  apply remove_from_skip.
Qed.

Lemma remove_from_absent old s : occurs old s = false → remove_from old 0 s = s.
Proof.
  induction s as [|c s IH]; [done|].
  cbn [occurs remove_from]. intros [Hp Ho]%orb_false_iff.
  rewrite Hp, IH by done. done.
Qed.

Lemma RemoveAll_prefix old rest : RemoveAll (old +:+ rest) old = RemoveAll rest old.
Proof.
  unfold RemoveAll. destruct (String.eqb_spec old "") as [->|Hne]; [done|].
  by apply remove_from_prefix.
Qed.

Lemma RemoveAll_absent old s : old ≠ "" → occurs old s = false → RemoveAll s old = s.
Proof.
  intros Hne Ho. unfold RemoveAll.
  destruct (String.eqb_spec old "") as [->|_]; [done|]. by apply remove_from_absent.
Qed.

(** X15.  The bucket that FilterS3Path returns holds no slash, and the
    path without the occurrences of the prefix is the bucket alone (then the
    key is empty) when it holds no slash, and bucket, slash, key
    otherwise. *)
Theorem FilterS3Path_cuts_at_the_first_slash (S3Prefix path : string) :
  let stripped := RemoveAll path S3Prefix in
  let '(bucket, key) := FilterS3Path S3Prefix path in
  has_byte "/" bucket = false ∧
  (if has_byte "/" stripped
   then stripped = bucket +:+ "/" +:+ key
   else stripped = bucket ∧ key = "").
Proof.
  unfold FilterS3Path. cbn zeta.
  generalize (RemoveAll path S3Prefix). intros stripped.
  pose proof (Join_split_from "/" "" stripped) as Hjoin.
  pose proof (λ piece, split_from_pieces "/" "" stripped piece eq_refl) as Hpieces.
  fold (Split stripped "/") in Hjoin, Hpieces.
  destruct (Split stripped "/") as [|b rest] eqn:Hs.
  { by apply split_from_nonempty in Hs. }
  cbn [hd tl]. rewrite append_nil_l in Hjoin.
  assert (Hb : has_byte "/" b = false) by (apply Hpieces; left).
  split; [done|].
  destruct rest as [|r rest].
  - cbn [Join] in *. subst stripped. by rewrite Hb.
  - rewrite Join_cons in Hjoin by done. subst stripped.
    rewrite has_byte_app, append_cons. cbn [has_byte].
    rewrite Ascii.eqb_refl, orb_true_r. done.
Qed.

(** X16.  A path made of the prefix, a bucket without slash, a slash and a
    key starts with the prefix and is taken apart into that bucket and that
    key, provided the prefix is not empty and does not occur in what follows
    it. *)
Theorem FilterS3Path_recovers_bucket_and_key (S3Prefix bucket key : string)
    (Hprefix : S3Prefix ≠ "")
    (Hbucket : has_byte "/" bucket = false)
    (Habsent : occurs S3Prefix (bucket +:+ "/" +:+ key) = false) :
  HasPrefix (S3Prefix +:+ bucket +:+ "/" +:+ key) S3Prefix = true ∧
  FilterS3Path S3Prefix (S3Prefix +:+ bucket +:+ "/" +:+ key) = (bucket, key).
Proof.
  split; [apply prefix_append|].
  unfold FilterS3Path. cbn zeta.
  rewrite RemoveAll_prefix, RemoveAll_absent by done.
  unfold Split. change ("/" +:+ key) with (String "/"%char key).
  rewrite split_from_first by done. cbn [hd tl].
  by rewrite Join_split_from.
Qed.

(** The path s3://bucket/path/manifest.yaml is taken apart into the bucket
    "bucket" and the key "path/manifest.yaml". *)
Lemma FilterS3Path_recovers_witness :
  HasPrefix "s3://bucket/path/manifest.yaml" "s3://" = true ∧
  FilterS3Path "s3://" "s3://bucket/path/manifest.yaml"
    = ("bucket", "path/manifest.yaml").
Proof.
  apply (FilterS3Path_recovers_bucket_and_key "s3://" "bucket" "path/manifest.yaml");
    [discriminate | vm_compute; reflexivity | vm_compute; reflexivity].
Defined.

(** ** Setting up the builder *)

Ltac absent :=
  let H := fresh in
  intros H; repeat (apply elem_of_cons in H as [H|H]; [discriminate H|]);
  by apply elem_of_nil in H.

Ltac present H :=
  repeat (apply elem_of_cons in H as [H|H]; [try discriminate H|]);
  [..|by apply elem_of_nil in H].

Lemma setManifestToBuilder_trace pkg builderSt :
  (setManifestToBuilder pkg builderSt).1 =
  [if HasPrefix (Manifest pkg builderSt) (S3Prefix pkg)
   then EvGetManifest (ManifestS3Region pkg builderSt)
          (FilterS3Path (S3Prefix pkg) (Manifest pkg builderSt)).1
          (FilterS3Path (S3Prefix pkg) (Manifest pkg builderSt)).2
   else EvSetManifestConfig].
Proof.
  unfold setManifestToBuilder.
  destruct (HasPrefix _ _); cbn [negb]; [|done].
  by destruct (FilterS3Path _ _).
Qed.

Lemma FilterS3Path_bucket S3Prefix path :
  has_byte "/" (FilterS3Path S3Prefix path).1 = false.
Proof.
  unfold FilterS3Path. cbn zeta. cbn [fst].
  pose proof (λ piece, split_from_pieces "/" "" (RemoveAll path S3Prefix) piece eq_refl)
    as Hpieces.
  fold (Split (RemoveAll path S3Prefix) "/") in Hpieces.
  destruct (Split _ _) as [|b rest]; [done|]. apply Hpieces. left.
Qed.



(** X18.  SetupBuilder and ServerSetup fetch a manifest from S3 only when
    its path starts with the prefix, from a bucket whose name holds no slash,
    and then do not read a local manifest; SetupBuilder does so only for the
    modes deploy and delete and after the configuration has passed its first
    validation. *)
Theorem setup_fetches_only_S3_manifests
    (pkg : BuilderPkg) (mode : string) (config : Config.t)
    (region bucket key : string) :
  (EvGetManifest region bucket key ∈ (SetupBuilder pkg mode).1 →
   ∃ builderSt, NewBuilder pkg None = inr builderSt ∧
     mode ∈ ["deploy"; "delete"] ∧
     PreConfigValidation pkg builderSt = None ∧
     HasPrefix (Manifest pkg builderSt) (S3Prefix pkg) = true ∧
     region = ManifestS3Region pkg builderSt ∧
     has_byte "/" bucket = false ∧
     (EvSetManifestConfig ∉ (SetupBuilder pkg mode).1)) ∧
  (EvGetManifest region bucket key ∈ (ServerSetup pkg config).1 →
   ∃ builderSt, NewBuilder pkg (Some config) = inr builderSt ∧
     HasPrefix (Manifest pkg builderSt) (S3Prefix pkg) = true ∧
     region = ManifestS3Region pkg builderSt ∧
     has_byte "/" bucket = false ∧
     (EvSetManifestConfig ∉ (ServerSetup pkg config).1)).
Proof.
  pose proof (FilterS3Path_bucket (S3Prefix pkg)) as Hbucket.
  split.
  - unfold SetupBuilder.
    destruct (NewBuilder pkg None) as [err|builderSt]; [by intros ?%elem_of_nil|].
    destruct (checkManifestCommands mode) eqn:Hmode; cbn [negb];
      [|by intros ?%elem_of_nil].
    apply IsStringInArray_true in Hmode.
    destruct (PreConfigValidation pkg builderSt) as [err|] eqn:Hpre.
    { cbn [fst]. by intros Hin%list_elem_of_singleton. }
    pose proof (setManifestToBuilder_trace pkg builderSt) as Ht.
    destruct (setManifestToBuilder pkg builderSt) as [t [b' err]].
    cbn [fst] in Ht. subst t.
    intros Hin. exists builderSt.
    destruct (HasPrefix _ _) eqn:Hp; destruct err; cbn [fst app] in *;
      present Hin; injection Hin as -> -> ->; repeat split;
      solve [done|apply Hbucket|absent].
  - unfold ServerSetup.
    destruct (NewBuilder pkg (Some config)) as [err|builderSt]; [by intros ?%elem_of_nil|].
    pose proof (setManifestToBuilder_trace pkg builderSt) as Ht.
    destruct (setManifestToBuilder pkg builderSt) as [t [b' err]].
    cbn [fst] in Ht. subst t.
    intros Hin. exists builderSt.
    destruct (HasPrefix _ _) eqn:Hp; destruct err; cbn [fst app] in *;
      present Hin; injection Hin as -> -> ->; repeat split;
      solve [done|apply Hbucket|absent].
Qed.

(** SetupBuilder fetches the manifest of the sample package for the mode
    deploy: the mode is one of deploy and delete and the bucket holds no
    slash. *)
Lemma setup_fetches_witness :
  EvGetManifest "ap-northeast-2" "bucket" "path/manifest.yaml"
    ∈ (SetupBuilder sample_pkg "deploy").1 ∧
  "deploy" ∈ ["deploy"; "delete"] ∧ has_byte "/" "bucket" = false.
Proof.
  assert (Hin : EvGetManifest "ap-northeast-2" "bucket" "path/manifest.yaml"
                  ∈ (SetupBuilder sample_pkg "deploy").1).
  { vm_compute. by repeat constructor. }
  split; [exact Hin|].
  apply (setup_fetches_only_S3_manifests sample_pkg "deploy" sample_config) in Hin
    as (b & _ & Hmode & _ & _ & _ & Hbucket & _).
  by split.
Defined.

(** ** The dispatcher *)

Lemma FuncMapper_lookup w sv si fuel r mode :
  FuncMapper w sv si fuel r !! mode =
  if String.eqb mode "deploy" then Some (Deploy w sv fuel r)
  else if String.eqb mode "delete" then Some (Delete w sv fuel r)
  else if String.eqb mode "status" then Some (Status sv si r)
  else if String.eqb mode "update" then Some (Update w sv fuel r)
  else None.
Proof.
  unfold FuncMapper.
  destruct (String.eqb_spec mode "deploy") as [->|H1]; [by rewrite lookup_insert_eq|].
  rewrite lookup_insert_ne by done.
  destruct (String.eqb_spec mode "delete") as [->|H2]; [by rewrite lookup_insert_eq|].
  rewrite lookup_insert_ne by done.
  destruct (String.eqb_spec mode "status") as [->|H3]; [by rewrite lookup_insert_eq|].
  rewrite lookup_insert_ne by done.
  destruct (String.eqb_spec mode "update") as [->|H4]; [by rewrite lookup_singleton_eq|].
  by rewrite lookup_singleton_ne.
Qed.

Lemma checkManifestCommands_spec mode :
  checkManifestCommands mode = String.eqb mode "deploy" || String.eqb mode "delete".
Proof.
  unfold checkManifestCommands. cbn [IsStringInArray].
  rewrite (String.eqb_sym "deploy"), (String.eqb_sym "delete").
  by destruct (String.eqb mode "deploy"), (String.eqb mode "delete").
Qed.

Lemma withRunner_messages w sv si fuel builderSt mode (post : list string) text :
  text ∈ messages (withRunner w sv si fuel builderSt mode (post, None)) →
  messages (withRunner w sv si fuel builderSt mode (post, None)) = post ∧
  returned (withRunner w sv si fuel builderSt mode (post, None)) = Returns tt ∧
  ∃ m, FuncMapper w sv si fuel {| Builder := builderSt |} !! mode = Some m ∧
       verdict m = Returns tt.
Proof.
  unfold withRunner, NewRunner, Run.
  destruct (FuncMapper _ _ _ _ _ !! mode) as [[t [[]|e|]]|];
    cbn [messages returned fst snd check]; try by intros ?%elem_of_nil.
  intros _. eauto.
Qed.

Lemma withRunner_outcome w sv si fuel builderSt mode (post : list string) :
  (events (withRunner w sv si fuel builderSt mode (post, None)),
   returned (withRunner w sv si fuel builderSt mode (post, None))) =
  match FuncMapper w sv si fuel {| Builder := builderSt |} !! mode with
  | Some m => (trace m, verdict m)
  | None => ([], Fails (ErrExternal ("no function exists to run for " +:+ mode)))
  end.
Proof.
  unfold withRunner, NewRunner, Run.
  by destruct (FuncMapper _ _ _ _ _ !! mode) as [[t [[]|e|]]|].
Qed.

Lemma withRunner_unknown w sv si fuel builderSt mode post :
  FuncMapper w sv si fuel {| Builder := builderSt |} !! mode = None →
  withRunner w sv si fuel builderSt mode post =
  {| events := []; messages := [];
     returned := Fails (ErrExternal ("no function exists to run for " +:+ mode)) |}.
Proof. unfold withRunner, NewRunner, Run. by intros ->. Qed.

(** X19.  Start sends a message only after the run of the mode deploy or
    delete has returned nil, and then exactly one, naming the mode that ran;
    nothing is sent when the configuration turns the chat off, when the
    validation or the run failed, or for another mode. *)
Theorem Start_reports_only_a_finished_run
    (w : World) (sv : Services) (si : StatusInspector) (va : Validation)
    (fuel : nat) (builderSt : Builder.t) (mode text : string)
    (Hsent : text ∈ messages (Start w sv si va fuel builderSt mode)) :
  messages (Start w sv si va fuel builderSt mode) = [text] ∧
  returned (Start w sv si va fuel builderSt mode) = Returns tt ∧
  Config.SlackOff (Builder.Config builderSt) = false ∧
  CheckValidation va builderSt = None ∧
  ((mode = "deploy" ∧
    text = ":100: Deployment is done: " +:+ AwsConfigName va builderSt ∧
    verdict (Deploy w sv fuel {| Builder := builderSt |}) = Returns tt) ∨
   (mode = "delete" ∧
    text = ":100: Delete process is done: " +:+ AwsConfigName va builderSt ∧
    verdict (Delete w sv fuel {| Builder := builderSt |}) = Returns tt)).
Proof.
  revert Hsent. unfold Start.
  destruct (if checkManifestCommands mode then CheckValidation va builderSt else None)
    as [err|] eqn:Hva; [by intros ?%elem_of_nil|].
  intros Hsent.
  destruct (withRunner_messages _ _ _ _ _ _ _ _ Hsent) as (Hm & Hr & m & Hlook & Hv).
  rewrite Hm in Hsent |- *. rewrite Hr. clear Hm Hr.
  rewrite FuncMapper_lookup in Hlook.
  rewrite checkManifestCommands_spec in Hva.
  destruct (Config.SlackOff (Builder.Config builderSt)); cbn [negb] in *;
    [by apply elem_of_nil in Hsent|].
  destruct (String.eqb_spec mode "deploy") as [->|H1].
  - cbn [String.eqb Ascii.eqb Bool.eqb app orb] in *.
    apply list_elem_of_singleton in Hsent as ->. simplify_eq. auto 10.
  - destruct (String.eqb_spec mode "delete") as [->|H2].
    + cbn [String.eqb Ascii.eqb Bool.eqb app orb] in *.
      apply list_elem_of_singleton in Hsent as ->. simplify_eq. auto 10.
    + by apply elem_of_nil in Hsent.
Qed.

(** With the chat turned on, a deployment that returns nil is reported,
    once. *)
Lemma Start_reports_witness :
  messages (Start (willing_world 5) sample_services sample_inspector sample_validation
              10 chatty_builder "deploy") = [":100: Deployment is done: hello"] ∧
  returned (Start (willing_world 5) sample_services sample_inspector sample_validation
              10 chatty_builder "deploy") = Returns tt.
Proof.
  destruct (Start_reports_only_a_finished_run (willing_world 5) sample_services
              sample_inspector sample_validation 10 chatty_builder "deploy"
              ":100: Deployment is done: hello") as (Hm & Hr & _).
  { vm_compute. by repeat constructor. }
  by split.
Defined.

(** X20.  Start validates the configuration for the modes deploy and
    delete only and runs nothing when the validation fails; the modes status
    and update run without validation; any other mode is refused with the
    error that names it, and nothing has run. *)
Theorem Start_validates_and_dispatches
    (w : World) (sv : Services) (si : StatusInspector) (va : Validation)
    (fuel : nat) (builderSt : Builder.t) (mode : string) :
  let r := {| Builder := builderSt |} in
  let outcome (m : run unit) := (events (Start w sv si va fuel builderSt mode),
                                 returned (Start w sv si va fuel builderSt mode))
                                = (trace m, verdict m) in
  (mode ∈ ["deploy"; "delete"] →
   match CheckValidation va builderSt with
   | Some err => Start w sv si va fuel builderSt mode
                 = {| events := []; messages := []; returned := Fails err |}
   | None => outcome (if String.eqb mode "deploy" then Deploy w sv fuel r
                      else Delete w sv fuel r)
   end) ∧
  (mode = "status" → outcome (Status sv si r)) ∧
  (mode = "update" → outcome (Update w sv fuel r)) ∧
  (mode ∉ ["deploy"; "delete"; "status"; "update"] →
   Start w sv si va fuel builderSt mode
   = {| events := []; messages := [];
        returned := Fails (ErrExternal ("no function exists to run for " +:+ mode)) |}).
Proof.
  cbn zeta. unfold Start. rewrite checkManifestCommands_spec.
  repeat split.
  - intros [->|[->|[]%elem_of_nil]%elem_of_cons]%elem_of_cons;
      cbn [orb String.eqb Ascii.eqb Bool.eqb];
      (destruct (CheckValidation va builderSt); [done|]);
      by rewrite withRunner_outcome, FuncMapper_lookup.
  - intros ->. cbn [orb String.eqb Ascii.eqb Bool.eqb].
    by rewrite withRunner_outcome, FuncMapper_lookup.
  - intros ->. cbn [orb String.eqb Ascii.eqb Bool.eqb].
    by rewrite withRunner_outcome, FuncMapper_lookup.
  - intros (H1 & (H2 & (H3 & (H4 & _)%not_elem_of_cons)%not_elem_of_cons)
              %not_elem_of_cons)%not_elem_of_cons.
    apply String.eqb_neq in H1, H2, H3, H4.
    rewrite H1, H2. cbn [orb].
    apply withRunner_unknown. by rewrite FuncMapper_lookup, H1, H2, H3, H4.
Qed.

(** There is no mode rollback. *)
Lemma Start_refuses_witness :
  Start (sample_world 5) sample_services sample_inspector sample_validation 10
    (Builder sample_runner) "rollback"
  = {| events := []; messages := [];
       returned := Fails (ErrExternal "no function exists to run for rollback") |}.
Proof.
  apply (Start_validates_and_dispatches (sample_world 5) sample_services
           sample_inspector sample_validation 10 (Builder sample_runner) "rollback").
  intros H. repeat (apply elem_of_cons in H as [H|H]; [discriminate H|]).
  by apply elem_of_nil in H.
Defined.

(** ** init and add *)

(** X21.  Initialize runs the initializer, and AddManifest adds a manifest,
    for the name given as the only argument or, without arguments, for the
    name answered at the prompt when the answer is not empty, and in no other
    case; neither runs the other's action, and the prompt is shown only when
    there is no argument. *)
Theorem init_and_add_run_for_the_given_or_the_answered_name
    (tm : Terminal) (args : list string) (name : string) :
  let answered := args = [] ∧ AskOne tm "What is application name? " = name
                  ∧ name ≠ EmptyString tm in
  (EvRunInit name ∈ (Initialize tm args).1 ↔ args = [name] ∨ answered) ∧
  (EvRunAdd name ∈ (AddManifest tm args).1 ↔ args = [name] ∨ answered) ∧
  (EvRunAdd name ∉ (Initialize tm args).1) ∧
  (EvRunInit name ∉ (AddManifest tm args).1) ∧
  (∀ message, EvAskName message ∈ (Initialize tm args).1 ∨
              EvAskName message ∈ (AddManifest tm args).1 → args = []).
Proof.
  cbn zeta. unfold Initialize, AddManifest, askApplicationName.
  destruct args as [|arg [|arg' args]]; cbn [length Nat.ltb Nat.leb fst snd app].
  - destruct (String.eqb_spec (AskOne tm "What is application name? ") (EmptyString tm))
      as [Heq|Hne]; cbn [fst app].
    + repeat split; try absent; try done.
      all: intros [?|(_ & <- & Hne)]; done.
    + repeat split; try absent; try done.
      all: try (intros Hin; present Hin; injection Hin as ->; by right).
      all: intros [?|(_ & <- & _)]; [done|]; apply elem_of_cons; right; left.
  - repeat split; try absent.
    all: try (intros Hin; present Hin; injection Hin as ->; by left).
    all: try (intros [[= ->]|[? _]]; [left|done]).
    intros message [Hin|Hin]; present Hin.
  - repeat split; try absent.
    all: try by intros [?|[? _]].
    by intros message [?%elem_of_nil|?%elem_of_nil].
Qed.

(** With the argument hello, init runs for hello; without arguments, add
    runs for the answer of the operator. *)
Lemma init_and_add_run_witness :
  EvRunInit "hello" ∈ (Initialize sample_terminal ["hello"]).1 ∧
  EvRunAdd "hello" ∈ (AddManifest sample_terminal []).1.
Proof.
  split.
  - apply (init_and_add_run_for_the_given_or_the_answered_name sample_terminal
             ["hello"] "hello"). by left.
  - apply (init_and_add_run_for_the_given_or_the_answered_name sample_terminal
             [] "hello"). right. by repeat split.
Defined.

(** X22.  Initialize and AddManifest return nil exactly when their action
    ran and returned nil; with more than one argument they return the usage
    error, and with no argument and an empty answer the error canceled, in
    both cases without running anything. *)
Theorem init_and_add_errors (tm : Terminal) (args : list string) :
  ((Initialize tm args).2 = None ↔
   ∃ name, EvRunInit name ∈ (Initialize tm args).1 ∧ RunInit tm name = None) ∧
  ((AddManifest tm args).2 = None ↔
   ∃ name, EvRunAdd name ∈ (AddManifest tm args).1 ∧ RunAdd tm name = None) ∧
  ((1 < length args)%nat →
   Initialize tm args = ([], Some (ErrExternal "usage: goployer init <application name>")) ∧
   AddManifest tm args = ([], Some (ErrExternal "usage: goployer add <application name>"))) ∧
  (args = [] → AskOne tm "What is application name? " = EmptyString tm →
   Initialize tm args = ([EvAskName "What is application name? "],
                         Some (ErrExternal "canceled")) ∧
   AddManifest tm args = ([EvAskName "What is application name? "],
                          Some (ErrExternal "canceled"))).
Proof.
  unfold Initialize, AddManifest, askApplicationName.
  destruct args as [|arg [|arg' args]]; cbn [length Nat.ltb Nat.leb fst snd app].
  - destruct (String.eqb_spec (AskOne tm "What is application name? ") (EmptyString tm))
      as [Heq|Hne]; cbn [fst snd app].
    + repeat split; try done; try (cbn [length]; lia).
      all: intros (name & Hin & _); present Hin.
    + repeat split; try done; try (cbn [length]; lia).
      all: try (intros Hrun; eexists; split; [|exact Hrun]; apply elem_of_cons; right; left).
      all: intros (name & Hin & Hrun); present Hin; by injection Hin as ->.
  - repeat split; try done; try (cbn [length]; lia).
    all: try (intros Hrun; eexists; split; [|exact Hrun]; left).
    all: intros (name & Hin & Hrun); present Hin; by injection Hin as ->.
  - repeat split; try done.
    all: intros (name & Hin & _); by apply elem_of_nil in Hin.
Qed.

(** Two arguments are one too many. *)
Lemma init_and_add_errors_witness :
  Initialize sample_terminal ["a"; "b"]
    = ([], Some (ErrExternal "usage: goployer init <application name>")) ∧
  AddManifest sample_terminal ["a"; "b"]
    = ([], Some (ErrExternal "usage: goployer add <application name>")).
Proof.
  apply (init_and_add_errors sample_terminal ["a"; "b"]). cbn. lia.
Defined.
